(** * pilot.c: the quadcopter autopilot's boot gate, mode switch and mixer

    A shallow embedding of [src/pilot.c] (an AVR program: [int] has 16 bits,
    [long] 32) and the properties of its boot-time sanity gate, of
    [modes_update], of [control_update] and of the console handler.

    Integers are [Z] with the C types' wrap-around written out; the
    [motor] array is a list read and updated by index; everything the
    firmware does to the outside world (console, actuators, interrupt
    flag) is recorded in a chronological list of events. *)

From Stdlib Require Import ZArith Lia Bool String Ascii.
From stdpp Require Import base list.

Local Open Scope Z_scope.

(** ** Machine integers *)

Module Int.

(** Value of an unsigned [w]-bit object after storing [x] in it. *)
Definition unsigned (w x : Z) : Z := x mod 2 ^ w.

(** Value of a signed (two's complement) [w]-bit object after storing [x]. *)
Definition signed (w x : Z) : Z := (x + 2 ^ (w - 1)) mod 2 ^ w - 2 ^ (w - 1).

Definition u8 : Z -> Z := unsigned 8.
Definition u16 : Z -> Z := unsigned 16.
Definition u32 : Z -> Z := unsigned 32.
Definition s16 : Z -> Z := signed 16.
Definition s32 : Z -> Z := signed 32.

Definition is_u8 (x : Z) : Prop := 0 <= x <= 255.
Definition is_s16 (x : Z) : Prop := -32768 <= x <= 32767.
Definition is_s32 (x : Z) : Prop := -2147483648 <= x <= 2147483647.

End Int.
Import Int.

(** ** Events visible outside the program *)

Inductive event : Type :=
| Cli | Sei
| SerialInit | AdcInit | TimerInit | ActuatorsInit (n : Z)
| SerialSetHandler | RxInit | TwiInit | AdcConvertAll
| Delay (ms : Z)
| SerialStr (s : string) | SerialHex16 (v : Z) | SerialFp32 (v d : Z)
| SerialChar (c : ascii) | SerialEol | SerialDec8 (v : Z)
| CmpsRead (off len : Z) | AdcConvert (ch : Z)
| AhrsInit | ActuatorsStart
| ActuatorSet (n : nat) (v : Z).

(** ** Globals owned by the collaborators *)

(** The receiver's channels ([rx.h]); each is an 8-bit quantity. *)
Record rx_t : Type := mk_rx {
  rx_gyro_sw : Z;
  rx_right_pot : Z;
  rx_co_right : Z;
  rx_cy_right : Z;
  rx_cy_front : Z;
  rx_co_throttle : Z
}.

Definition rx_valid (rx : rx_t) : Prop :=
  is_u8 (rx_gyro_sw rx) /\ is_u8 (rx_right_pot rx) /\ is_u8 (rx_co_right rx) /\
  is_u8 (rx_cy_right rx) /\ is_u8 (rx_cy_front rx) /\ is_u8 (rx_co_throttle rx).

(** The attitude estimate ([ahrs.h]): 32-bit pitch and roll angles, 16-bit
    yaw angle and rates. *)
Record ahrs_t : Type := mk_ahrs {
  ahrs_pitch : Z;
  ahrs_pitch_rate : Z;
  ahrs_roll : Z;
  ahrs_roll_rate : Z;
  ahrs_yaw : Z;
  ahrs_yaw_rate : Z
}.

Definition ahrs_valid (h : ahrs_t) : Prop :=
  is_s32 (ahrs_pitch h) /\ is_s16 (ahrs_pitch_rate h) /\
  is_s32 (ahrs_roll h) /\ is_s16 (ahrs_roll_rate h) /\
  is_s16 (ahrs_yaw h) /\ is_s16 (ahrs_yaw_rate h).

(** ** The program's own state *)

Inductive phase : Type := BOOT | RUNNING | HALTED.

(** [motor], [modes], [prev_sw] and [set_yaw] are the file's statics; [irq]
    is the global interrupt flag, [pc] where the main context is, [out] what
    has been done so far, oldest first. *)
Record machine : Type := mk_machine {
  pc : phase;
  irq : bool;
  motor : list Z;
  modes : Z;
  prev_sw : Z;
  set_yaw : Z;
  out : list event
}.

Definition power_on : machine :=
  mk_machine BOOT false [0; 0; 0; 0] 0 0 0 [].

Definition emit (e : list event) (m : machine) : machine :=
  mk_machine (pc m) (irq m) (motor m) (modes m) (prev_sw m) (set_yaw m) (out m ++ e).
Definition with_pc (p : phase) (m : machine) : machine :=
  mk_machine p (irq m) (motor m) (modes m) (prev_sw m) (set_yaw m) (out m).
Definition with_motor (v : list Z) (m : machine) : machine :=
  mk_machine (pc m) (irq m) v (modes m) (prev_sw m) (set_yaw m) (out m).
Definition with_modes (v : Z) (m : machine) : machine :=
  mk_machine (pc m) (irq m) (motor m) v (prev_sw m) (set_yaw m) (out m).
Definition with_prev_sw (v : Z) (m : machine) : machine :=
  mk_machine (pc m) (irq m) (motor m) (modes m) v (set_yaw m) (out m).
Definition with_set_yaw (v : Z) (m : machine) : machine :=
  mk_machine (pc m) (irq m) (motor m) (modes m) (prev_sw m) v (out m).

(** [cli()] and [sei()] clear and set the interrupt flag. *)
Definition cli (m : machine) : machine :=
  mk_machine (pc m) false (motor m) (modes m) (prev_sw m) (set_yaw m) (out m ++ [Cli]).
Definition sei (m : machine) : machine :=
  mk_machine (pc m) true (motor m) (modes m) (prev_sw m) (set_yaw m) (out m ++ [Sei]).

(** ** [modes_update] *)

Definition MODE_MOTORS_ARMED : Z := 0.
Definition MODE_HEADINGHOLD_ENABLE : Z := 1.
Definition MODE_PANTILT_ENABLE : Z := 2.

(** [modes & (1 << bit)] as a C condition. *)
Definition mode_on (md bit : Z) : bool :=
  negb (Z.land md (Z.shiftl 1 bit) =? 0).

(** [num = ((uint16_t) rx_right_pot + 36) / 49]. *)
Definition mode_index (pot : Z) : Z := u8 (u16 (u16 pot + 36) / 49).

Definition modes_update (rx : rx_t) (m : machine) : machine :=
  if rx_gyro_sw rx =? prev_sw m then m
  else
    let m := with_prev_sw (rx_gyro_sw rx) m in
    let num := mode_index (rx_right_pot rx) in
    let m := with_modes (u8 (Z.land (modes m) (Z.shiftl 1 num))) m in
    with_modes (u8 (Z.lor (modes m) (Z.shiftl (prev_sw m) num))) m.

(** ** [control_update] *)

(** The [CLAMP(x, mi, ma)] macro. *)
Definition CLAMP (x mi ma : Z) : Z :=
  let x := if x <? mi then mi else x in
  if x >? ma then ma else x.

(** The easing applied to [dest_pitch] and to [dest_roll] (the two copies in
    the source differ in the variable only). *)
Definition ease (x : Z) : Z :=
  if (x <? 0x400) && (x >? -0x400) then s16 (Z.shiftr x 2)
  else if x >? 0 then s16 (x - 0x300)
  else s16 (x + 0x300).

(** The locals of [control_update] when the motor commands are written. *)
Record locals : Type := mk_locals {
  cur_pitch : Z; cur_roll : Z; cur_yaw : Z;
  base_throttle : Z;
  dest_pitch : Z; dest_roll : Z; dest_yaw : Z;
  set_yaw' : Z;
  mot_a : Z; mot_b : Z; mot_c : Z; mot_d : Z
}.

Definition control_locals (md sy : Z) (rx : rx_t) (h : ahrs_t) : locals :=
  let co_right := rx_co_right rx in
  let cy_right := rx_cy_right rx in
  let cy_front := rx_cy_front rx in
  let cur_pitch := s16 (s32 (Z.shiftr (ahrs_pitch h) 16) + Z.shiftr (ahrs_pitch_rate h) 2) in
  let cur_roll := s16 (s32 (Z.shiftr (ahrs_roll h) 16) + Z.shiftr (ahrs_roll_rate h) 2) in
  let cur_yaw := s16 (ahrs_yaw h + s16 (Z.shiftl (ahrs_yaw_rate h) 1)) in
  let pantilt := mode_on md MODE_PANTILT_ENABLE in
  let co_right := if pantilt then 0x80 else co_right in
  let cy_right := if pantilt then 0x80 else cy_right in
  let cy_front := if pantilt then 0x80 else cy_front in
  let dest_pitch := s16 (s16 (Z.shiftl cy_front 5) - Z.shiftl 128 5) in
  let dest_roll := s16 (s16 (Z.shiftl cy_right 5) - Z.shiftl 128 5) in
  let sy := s16 (sy + s16 (s16 (Z.shiftl co_right 2) - Z.shiftl 128 2)) in
  let dest_yaw := sy in
  let base_throttle := s16 (Z.shiftl (rx_co_throttle rx) 7) in
  let dest_pitch := s16 (Z.quot (s16 (- s16 (cur_pitch + dest_pitch))) 1) in
  let dest_roll := s16 (Z.quot (s16 (- s16 (cur_roll + dest_roll))) 1) in
  let dest_yaw := s16 (cur_yaw - dest_yaw) in
  let dest_pitch := ease dest_pitch in
  let dest_roll := ease dest_roll in
  let hh := mode_on md MODE_HEADINGHOLD_ENABLE in
  let dest_yaw :=
    if hh then CLAMP dest_yaw (-0x800) 0x800
    else s16 (Z.shiftl 128 5 - s16 (Z.shiftl co_right 5)) in
  let sy := if hh then sy else cur_yaw in
  let a := s32 (base_throttle + dest_pitch + dest_roll + dest_yaw) in
  let b := s32 (base_throttle - dest_pitch + dest_roll - dest_yaw) in
  let c := s32 (base_throttle + dest_pitch - dest_roll - dest_yaw) in
  let d := s32 (base_throttle - dest_pitch - dest_roll + dest_yaw) in
  let a := CLAMP a 0 32000 in
  let b := CLAMP b 0 32000 in
  let c := CLAMP c 0 32000 in
  let d := CLAMP d 0 32000 in
  mk_locals cur_pitch cur_roll cur_yaw base_throttle
            dest_pitch dest_roll dest_yaw sy a b c d.

(** What [control_update] hands to [actuator_set], motor 0 first. *)
Definition motor_commands (l : locals) : list Z :=
  [u16 (mot_a l); u16 (mot_b l); u16 (mot_c l); u16 (mot_d l)].

Definition control_update (rx : rx_t) (h : ahrs_t) (m : machine) : machine :=
  let m := cli m in
  let m := sei m in
  let l := control_locals (modes m) (set_yaw m) rx h in
  let m := with_set_yaw (set_yaw' l) m in
  emit [ActuatorSet 0 (u16 (mot_a l)); ActuatorSet 1 (u16 (mot_b l));
        ActuatorSet 2 (u16 (mot_c l)); ActuatorSet 3 (u16 (mot_d l))] m.

(** ** [loop] *)

Definition loop (rx : rx_t) (h : ahrs_t) (m : machine) : machine :=
  let m := emit [Delay 20] m in
  let m := modes_update rx m in
  control_update rx h m.

(** ** The console handler *)

Definition actuator_set (n : nat) (v : Z) (m : machine) : machine :=
  emit [ActuatorSet n (u16 v)] m.

Definition show_state (m : machine) : machine :=
  emit [SerialDec8 (motor m !!! 0%nat); SerialDec8 (motor m !!! 1%nat);
        SerialDec8 (motor m !!! 2%nat); SerialDec8 (motor m !!! 3%nat);
        SerialEol] m.

(** The two macros, up to their [break]. *)
Definition MOTOR_DOWN (n : nat) (m : machine) : machine :=
  let m :=
    if motor m !!! n >? 0
    then with_motor (<[n := u8 (motor m !!! n - 1)]> (motor m)) m
    else m in
  actuator_set n (Z.shiftl (motor m !!! n) 8) m.

Definition MOTOR_UP (n : nat) (m : machine) : machine :=
  let m :=
    if motor m !!! n <? 255
    then with_motor (<[n := u8 (motor m !!! n + 1)]> (motor m)) m
    else m in
  actuator_set n (Z.shiftl (motor m !!! n) 8) m.

(** The [switch]: [Some] when a case ends in [break], [None] for the
    [default: return]. *)
Definition handle_switch (ch : ascii) (m : machine) : option machine :=
  match ch with
  | "a"%char => Some (MOTOR_DOWN 0 m)
  | "s"%char => Some (MOTOR_DOWN 1 m)
  | "d"%char => Some (MOTOR_DOWN 2 m)
  | "f"%char => Some (MOTOR_DOWN 3 m)
  | "q"%char => Some (MOTOR_UP 0 m)
  | "w"%char => Some (MOTOR_UP 1 m)
  | "e"%char => Some (MOTOR_UP 2 m)
  | "r"%char => Some (MOTOR_UP 3 m)
  | _ => None
  end.

Definition handle_input (ch : ascii) (m : machine) : machine :=
  match handle_switch ch m with
  | Some m => show_state (sei m)
  | None => m
  end.

(** ** The board as [setup] sees it *)

(** What the collaborators answer during [setup]: the registers, the ADC,
    the compass module and the receiver.  [adc_convert k ch] is the
    conversion of channel [ch] in round [k] of the gyro polling;
    [cmps09_acc_regs k] the register block of the [k]-th accelerometer
    read; [cmps09_version] what [ver] holds after the read of register 0
    (0xff when nothing was read); [rx_no_signal] and [rx_throttle] the
    receiver's globals when the receiver check reads them; [isqrt32] the
    square-root routine of [isqrt.h], taken with a 32-bit result. *)
Record board : Type := mk_board {
  SREG : Z;
  MCUCR : Z;
  adc_values : list Z;
  adc_convert : nat -> Z -> Z;
  cmps09_version : Z;
  cmps09_mag_regs : list Z;
  cmps09_mag_calib : list Z;
  cmps09_acc_regs : nat -> list Z;
  rx_no_signal : Z;
  rx_throttle : Z;
  isqrt32 : Z -> Z
}.

(** ** A monad for [setup]: state passing, with [die] as the exit *)

Inductive outcome (A : Type) : Type :=
| Ret (a : A) (m : machine)
| Dead (m : machine)
| Fuel.
Arguments Ret {A} a m.
Arguments Dead {A} m.
Arguments Fuel {A}.

Definition prog (A : Type) : Type := machine -> outcome A.

Definition ret {A} (a : A) : prog A := fun m => Ret a m.

Definition bind {A B} (p : prog A) (k : A -> prog B) : prog B :=
  fun m =>
    match p m with
    | Ret a m => k a m
    | Dead m => Dead m
    | Fuel => Fuel
    end.

Definition act (f : machine -> machine) : prog unit := fun m => Ret tt (f m).
Definition say (e : list event) : prog unit := act (emit e).

Declare Scope prog_scope.
Delimit Scope prog_scope with prog.
Notation "x <- p ;; k" := (bind p (fun x => k))
  (at level 100, p at next level, right associativity) : prog_scope.
Notation "p ;; k" := (bind p (fun _ => k))
  (at level 100, right associativity) : prog_scope.

(** [die()]: the final [while (1);] is the [HALTED] phase. *)
Definition halt (m : machine) : machine :=
  with_pc HALTED (emit [SerialStr "ERROR"] (cli m)).

Definition die {A} : prog A := fun m => Dead (halt m).

Definition CRLF : string :=
  String (ascii_of_nat 13) (String (ascii_of_nat 10) EmptyString).

(** ** [setup] *)

(** [(((uint16_t) regs[i] << 8) | regs[i + 1])]. *)
Definition be16 (regs : list Z) (i : nat) : Z :=
  u16 (Z.lor (u16 (Z.shiftl (regs !!! i) 8)) (regs !!! S i)).

(** One gyro reading against the band of the [while] condition. *)
Definition in_band (v : Z) : bool := (v >? 0x2a0) && (v <? 0x350).

Definition gyro_cond (adc : list Z) : bool :=
  in_band (adc !!! 0%nat) && in_band (adc !!! 1%nat) && in_band (adc !!! 2%nat).

Definition gyro_body (b : board) (k : nat) (adc : list Z) : list Z :=
  let adc := <[0%nat := u16 (2 * adc_convert b k 0)]> adc in
  let adc := <[1%nat := u16 (2 * adc_convert b k 1)]> adc in
  <[2%nat := u16 (2 * adc_convert b k 2)]> adc.

(** The [while] loop of the gyro check; [k] counts the rounds done. The
    result is [cnt] and [adc_values] on exit. *)
Fixpoint gyro_while (fuel : nat) (b : board) (k : nat) (cnt : Z) (adc : list Z)
  : prog (Z * list Z) :=
  match fuel with
  | O => fun _ => Fuel
  | S fuel =>
    if gyro_cond adc then
      if cnt <? 20 then
        (say [AdcConvert 0; AdcConvert 1; AdcConvert 2] ;;
         gyro_while fuel b (S k) (u8 (cnt + 1)) (gyro_body b k adc))%prog
      else ret (u8 (cnt + 1), adc)
    else ret (cnt, adc)
  end.

(** [v] of the magnetic check for the axis whose registers start at [i]. *)
Definition mag_axis (b : board) (i : nat) : Z :=
  s16 (u16 (be16 (cmps09_mag_regs b) (2 * i) - cmps09_mag_calib b !!! i)).

(** [len] before [isqrt32] in the magnetic check. *)
Definition mag_sum (b : board) : Z :=
  let v := mag_axis b 0 in
  let len := u32 (s32 (v * v)) in
  let v := mag_axis b 1 in
  let len := u32 (len + s32 (v * v)) in
  let v := mag_axis b 2 in
  u32 (len + s32 (v * v)).

(** [v] of the accelerometer check. *)
Definition acc_axis (regs : list Z) (i : nat) : Z :=
  s16 (Z.shiftr (s16 (s16 (be16 regs (2 * i)) + 1)) 1).

(** One round of the [for] body on [len]. *)
Definition acc_round (regs : list Z) (len : Z) : Z :=
  let v := acc_axis regs 0 in
  let len := u32 (len + s32 (v * v)) in
  let v := acc_axis regs 1 in
  let len := u32 (len + s32 (v * v)) in
  let v := acc_axis regs 2 in
  u32 (len + s32 (v * v)).

(** The [for (cnt = 0; cnt < 16; cnt ++)] loop, [todo] rounds to go. *)
Fixpoint acc_for (todo : nat) (b : board) (cnt : nat) (len : Z) : prog Z :=
  match todo with
  | O => ret len
  | S todo =>
    (say [CmpsRead 16 6] ;;
     let len := acc_round (cmps09_acc_regs b cnt) len in
     say [Delay 20] ;;
     acc_for todo b (S cnt) len)%prog
  end.

(** [setup] is given in the order of the source, cut at its comments and
    console headings: initialisation and register dump, the sanity checks,
    the start of the estimator and of the actuators. *)

(** Lines 80-101. *)
Definition setup_init (b : board) : prog unit :=
  (say [SerialInit; AdcInit; TimerInit; ActuatorsInit 4; SerialSetHandler;
        RxInit; TwiInit] ;;
   act sei ;;
   say [AdcConvertAll] ;;
   say [Delay 4000] ;;
   say [SerialStr "SREG:"; SerialHex16 (SREG b); SerialStr ", MCUCR:";
        SerialHex16 (MCUCR b); SerialEol])%prog.

(** Lines 105-117. *)
Definition report_supply (b : board) : prog unit :=
  (say [SerialStr "Battery voltage:";
        SerialFp32 (u32 (adc_values b !!! 3%nat * 323 * (991 + 241)))
                   (0x400 * 100 * 241);
        SerialChar "V"; SerialEol] ;;
   say [SerialStr "CPU temperature:";
        SerialFp32 (u16 ((adc_values b !!! 4%nat - 269) * 1100)) 0x400;
        SerialEol])%prog.

(** Lines 119-125. *)
Definition check_revision (b : board) : prog unit :=
  (say [CmpsRead 0 1] ;;
   let ver := cmps09_version b in
   say [SerialStr "Magnetometer revision:"; SerialHex16 ver; SerialEol] ;;
   if negb (ver =? 0x02) then die else ret tt)%prog.

(** Lines 127-141. *)
Definition check_gyro (b : board) : prog unit :=
  (say [SerialStr "Checking if gyro readings in range.. "] ;;
   r <- gyro_while 21 b 0 0 (adc_values b) ;;
   (if fst r <? 21 then die else ret tt) ;;
   say [SerialStr "yep"; SerialEol])%prog.

(** Lines 143-156; the result is [len], which the next check goes on
    using. *)
Definition check_magnetic (b : board) : prog Z :=
  (say [SerialStr "Checking magnetic field magnitude.. "] ;;
   say [CmpsRead 10 6] ;;
   let len := u32 (isqrt32 b (mag_sum b)) in
   say [SerialFp32 len 1000; SerialStr " T"; SerialEol] ;;
   (if (len >? 600) || (len <? 300) then die else ret tt) ;;
   ret len)%prog.

(** Lines 158-176. *)
Definition check_accel (b : board) (len : Z) : prog unit :=
  (say [SerialStr "Checking accelerometer readings.. "] ;;
   len <- acc_for 16 b 0 len ;;
   let len := u32 (Z.shiftr (u32 (isqrt32 b len + 1)) 1) in
   say [SerialFp32 len 0x4050; SerialStr " g"; SerialEol] ;;
   if (len >? 0x4070) || (len <? 0x3f00) then die else ret tt)%prog.

(** Lines 178-185. *)
Definition check_receiver (b : board) : prog unit :=
  (say [SerialStr "Receiver signal: ";
        SerialStr (if negb (rx_no_signal b =? 0) then "NOPE" else "yep");
        SerialEol] ;;
   if (rx_no_signal b =? 0) && (rx_throttle b >? 5)
   then say [SerialStr ("Throttle stick is not in the bottom position" ++ CRLF)] ;;
        die
   else ret tt)%prog.

(** Lines 187-195. *)
Definition setup_start : prog unit :=
  (say [SerialStr ("Calibrating sensors.." ++ CRLF)] ;;
   say [AhrsInit] ;;
   say [ActuatorsStart] ;;
   say [SerialStr ("AHRS loop and actuator signals are running" ++ CRLF)] ;;
   act show_state)%prog.

(** Lines 103-185: "Perform all the status sanity checks". *)
Definition sanity_checks (b : board) : prog unit :=
  (report_supply b ;;
   check_revision b ;;
   check_gyro b ;;
   len <- check_magnetic b ;;
   check_accel b len ;;
   check_receiver b)%prog.

Definition setup (b : board) : prog unit :=
  (setup_init b ;;
   sanity_checks b ;;
   setup_start)%prog.

(** ** [main] and what happens afterwards *)

(** After [setup] the main context runs [loop] for ever; a console byte is
    handled by [handle_input] from the receive interrupt, which is taken
    only while interrupts are enabled.  In [HALTED] the main context sits
    in [die]'s [while (1);].  [setup] itself is taken as one uninterrupted
    step: stimuli are delivered once it has returned or died. *)
Inductive stimulus : Type :=
| Tick (rx : rx_t) (h : ahrs_t)
| Key (ch : ascii).

Definition react (m : machine) (s : stimulus) : machine :=
  match s with
  | Tick rx h =>
    match pc m with
    | RUNNING => loop rx h m
    | _ => m
    end
  | Key ch => if irq m then handle_input ch m else m
  end.

Definition run (m : machine) (ss : list stimulus) : machine :=
  fold_left react ss m.

(** [main]: [setup], then the [for (;;) loop();]. *)
Definition main (b : board) (ss : list stimulus) : outcome unit :=
  match setup b power_on with
  | Ret _ m => Ret tt (run (with_pc RUNNING m) ss)
  | Dead m => Dead (run m ss)
  | Fuel => Fuel
  end.

(** [n] rounds of [loop], one snapshot of the receiver and of the estimate
    per round. *)
Fixpoint run_loop (m : machine) (ts : list (rx_t * ahrs_t)) : machine :=
  match ts with
  | [] => m
  | t :: ts => run_loop (loop (fst t) (snd t) m) ts
  end.

(** ** The checks of [setup] as predicates on the board *)

(** [adc_values] after [k] rounds of the gyro polling. *)
Fixpoint gyro_readings (b : board) (k : nat) : list Z :=
  match k with
  | O => adc_values b
  | S k' => gyro_body b k' (gyro_readings b k')
  end.

Definition revision_ok (b : board) : bool := cmps09_version b =? 0x02.

Definition gyro_ok (b : board) : bool :=
  forallb (fun k => gyro_cond (gyro_readings b k)) (seq 0 21).

Definition mag_len (b : board) : Z := u32 (isqrt32 b (mag_sum b)).

Definition magnetic_ok (b : board) : bool :=
  (300 <=? mag_len b) && (mag_len b <=? 600).

Definition acc_sum (b : board) : Z :=
  fold_left (fun len k => acc_round (cmps09_acc_regs b k) len) (seq 0 16) (mag_len b).

Definition acc_len (b : board) : Z :=
  u32 (Z.shiftr (u32 (isqrt32 b (acc_sum b) + 1)) 1).

Definition accel_ok (b : board) : bool :=
  (0x3f00 <=? acc_len b) && (acc_len b <=? 0x4070).

Definition receiver_ok (b : board) : bool :=
  negb ((rx_no_signal b =? 0) && (rx_throttle b >? 5)).

Definition checks_pass (b : board) : bool :=
  revision_ok b && gyro_ok b && magnetic_ok b && accel_ok b && receiver_ok b.

(** The register blocks hold bytes, the calibration 16-bit offsets. *)
Definition regs_valid (regs : list Z) : Prop :=
  length regs = 6%nat /\ Forall is_u8 regs.

(** The conversions of [n] rounds of gyro polling and the traffic of [n]
    accelerometer reads, as they appear in [out]. *)
Definition gyro_polls (n : nat) : list event :=
  concat (repeat [AdcConvert 0; AdcConvert 1; AdcConvert 2] n).

Definition acc_reads (n : nat) : list event :=
  concat (repeat [CmpsRead 16 6; Delay 20] n).

(** Where the gyro [while] loop stops when it starts round [k] with [n]
    more rounds allowed: the value of [cnt] and the rounds it polled. *)
Fixpoint gyro_exit (b : board) (n k : nat) : nat * nat :=
  if gyro_cond (gyro_readings b k) then
    match n with
    | O => (S k, O)
    | S n' => (fst (gyro_exit b n' (S k)), S (snd (gyro_exit b n' (S k))))
    end
  else (k, O).

(** Events that neither start the actuator driver nor command a motor. *)
Definition quiet_event (e : event) : Prop :=
  match e with
  | ActuatorsStart | ActuatorSet _ _ => False
  | _ => True
  end.

(** [m'] is [m] with more output and possibly another interrupt flag. *)
Definition went_on (m m' : machine) (tr : list event) : Prop :=
  pc m' = pc m /\ motor m' = motor m /\ modes m' = modes m /\
  prev_sw m' = prev_sw m /\ set_yaw m' = set_yaw m /\
  out m' = out m ++ tr.

(** [m'] is [m] stopped by [die] after the output [tr]. *)
Definition halted_after (m m' : machine) (tr : list event) : Prop :=
  pc m' = HALTED /\ irq m' = false /\
  motor m' = motor m /\ modes m' = modes m /\
  prev_sw m' = prev_sw m /\ set_yaw m' = set_yaw m /\
  out m' = out m ++ tr ++ [Cli; SerialStr "ERROR"].

(** A part of [setup] that, from any state, either goes on with result [a]
    (when [ok]) or dies, and is quiet in both cases. *)
Definition stage {A} (p : prog A) (ok : bool) (a : A) : Prop :=
  forall m, exists m' tr,
    Forall quiet_event tr /\
    if ok then p m = Ret a m' /\ went_on m m' tr /\ irq m' = irq m
    else p m = Dead m' /\ halted_after m m' tr.

(** What one accelerometer read adds to [len], and [len] before the
    second [isqrt32] without the 32-bit wrap-around. *)
Definition acc_squares (regs : list Z) : Z :=
  acc_axis regs 0 ^ 2 + acc_axis regs 1 ^ 2 + acc_axis regs 2 ^ 2.

Definition acc_total (b : board) : Z :=
  mag_len b +
  fold_right Z.add 0 (map (fun k => acc_squares (cmps09_acc_regs b k)) (seq 0 16)).

(** ** The specification's wording of three checks, for comparison *)

(** The gyro check as worded: a reading outside the band costs one of the
    [budget] retries, and the check fails only when none is left before the
    three readings are in the band. *)
Fixpoint gyro_retry_spec (budget : nat) (b : board) (k : nat) (adc : list Z) : bool :=
  if gyro_cond adc then true
  else
    match budget with
    | O => false
    | S budget => gyro_retry_spec budget b (S k) (gyro_body b k adc)
    end.

(** The magnetic magnitude as worded: the Euclidean norm of two of the
    offset axes, [i] and [j]. *)
Definition mag_len_2d_spec (b : board) (i j : nat) : Z :=
  u32 (isqrt32 b (mag_axis b i ^ 2 + mag_axis b j ^ 2)).

Definition magnetic_ok_2d_spec (b : board) (i j : nat) : bool :=
  (300 <=? mag_len_2d_spec b i j) && (mag_len_2d_spec b i j <=? 600).

(** The accelerometer check as worded: the squares of the samples are added
    to the running sum left by the magnetic check, and the integer square
    root of the total is compared with the band. *)
Definition acc_sample (regs : list Z) (i : nat) : Z := s16 (be16 regs (2 * i)).

Definition acc_round_spec (regs : list Z) (len : Z) : Z :=
  u32 (len + acc_sample regs 0 ^ 2 + acc_sample regs 1 ^ 2 + acc_sample regs 2 ^ 2).

Definition acc_sum_spec (b : board) : Z :=
  fold_left (fun len k => acc_round_spec (cmps09_acc_regs b k) len) (seq 0 16) (mag_len b).

Definition accel_ok_spec (b : board) : bool :=
  (0x3f00 <=? isqrt32 b (acc_sum_spec b)) && (isqrt32 b (acc_sum_spec b) <=? 0x4070).

(** ** The yaw setpoint over several rounds *)

(** The state [control_update] starts from in a round of [loop]. *)
Definition before_control (rx : rx_t) (m : machine) : machine :=
  modes_update rx (emit [Delay 20] m).

(** Heading-hold is enabled in every round's [control_update]. *)
Fixpoint hh_throughout (m : machine) (ts : list (rx_t * ahrs_t)) : Prop :=
  match ts with
  | [] => True
  | t :: ts =>
    mode_on (modes (before_control (fst t) m)) MODE_HEADINGHOLD_ENABLE = true /\
    hh_throughout (loop (fst t) (snd t) m) ts
  end.

(** [dest_yaw] as mixed into the motors, round by round. *)
Fixpoint yaw_errors (m : machine) (ts : list (rx_t * ahrs_t)) : list Z :=
  match ts with
  | [] => []
  | t :: ts =>
    let m1 := before_control (fst t) m in
    dest_yaw (control_locals (modes m1) (set_yaw m1) (fst t) (snd t))
      :: yaw_errors (loop (fst t) (snd t) m) ts
  end.

(** The stick-derived step of the setpoint, and its sum over the rounds. *)
Definition stick_delta (rx : rx_t) : Z := (rx_co_right rx - 128) * 4.

Definition sum_deltas (ts : list (rx_t * ahrs_t)) : Z :=
  fold_right (fun t acc => stick_delta (fst t) + acc) 0 ts.

(** The switch channel is 0 or 1, and at most one mode bit is set (as after
    power-on and after every [modes_update] with such a switch). *)
Definition switch_bool (rx : rx_t) : Prop := rx_gyro_sw rx = 0 \/ rx_gyro_sw rx = 1.

Definition one_mode (md : Z) : Prop :=
  md = 0 \/ exists k, 0 <= k <= 7 /\ md = 2 ^ k.

(** ** Boards and inputs used in the examples *)

(** Modelled from the spec: [isqrt32] of [isqrt.h], which is not among the
    sources and which the specification calls "an integer square-root
    function"; it is taken as the square root rounded down. The theorems
    on [setup] hold for any [isqrt32]; only the example boards use this
    one. *)
Definition isqrt32_floor : Z -> Z := Z.sqrt.

(** A board at rest: gyros at the expected 0x2fb, a field of 200 per axis
    after calibration, 1 g on the third accelerometer axis, no receiver. *)
Definition board_at_rest : board :=
  mk_board 0 0 [0x2fb; 0x2fb; 0x2fb; 700; 350]
           (fun _ _ => 0x17d)
           0x02
           [0; 210; 0; 220; 0; 230] [10; 20; 30]
           (fun _ => [0; 0; 0; 0; 0x40; 0x50])
           10 0
           isqrt32_floor.

Definition with_version (v : Z) (b : board) : board :=
  mk_board (SREG b) (MCUCR b) (adc_values b) (adc_convert b) v
           (cmps09_mag_regs b) (cmps09_mag_calib b) (cmps09_acc_regs b)
           (rx_no_signal b) (rx_throttle b) (isqrt32 b).

Definition with_adc_values (v : list Z) (b : board) : board :=
  mk_board (SREG b) (MCUCR b) v (adc_convert b) (cmps09_version b)
           (cmps09_mag_regs b) (cmps09_mag_calib b) (cmps09_acc_regs b)
           (rx_no_signal b) (rx_throttle b) (isqrt32 b).

(** The same board with the third gyro reading just outside the band
    when [setup] starts; every conversion afterwards is in the band. *)
Definition board_gyro_glitch : board :=
  with_adc_values [0x2fb; 0x2fb; 0x351; 700; 350] board_at_rest.

Definition rx_neutral : rx_t := mk_rx 0 0 128 128 128 0.
Definition ahrs_level : ahrs_t := mk_ahrs 0 0 0 0 0 0.

(** Switch on with the selector at heading-hold, yaw stick hard over. *)
Definition rx_hold_yaw_right : rx_t := mk_rx 1 49 255 128 128 0.

(** ** The console protocol as a table *)

(** The motor a key addresses and whether it lowers ([true]) or raises
    its test value; [None] for every other byte. *)
Definition key_target (ch : ascii) : option (nat * bool) :=
  if Ascii.eqb ch "a" then Some (0%nat, true)
  else if Ascii.eqb ch "s" then Some (1%nat, true)
  else if Ascii.eqb ch "d" then Some (2%nat, true)
  else if Ascii.eqb ch "f" then Some (3%nat, true)
  else if Ascii.eqb ch "q" then Some (0%nat, false)
  else if Ascii.eqb ch "w" then Some (1%nat, false)
  else if Ascii.eqb ch "e" then Some (2%nat, false)
  else if Ascii.eqb ch "r" then Some (3%nat, false)
  else None.

(** The test value after one key: one down but not below 0, one up but not
    above 255. *)
Definition key_step (down : bool) (x : Z) : Z :=
  if down then Z.max 0 (x - 1) else Z.min 255 (x + 1).

(** [motor] is an array of four bytes. *)
Definition motors_ok (m : machine) : Prop :=
  length (motor m) = 4%nat /\ Forall is_u8 (motor m).

(** The last [n] events. *)
Definition last_events (n : nat) (m : machine) : list event :=
  drop (length (out m) - n) (out m).

(** ** Runs of the console and of the whole program *)

(** The same key [n] times. *)
Definition presses (ch : ascii) (n : nat) (m : machine) : machine :=
  Nat.iter n (handle_input ch) m.

(** A tick carries valid channels and a 0/1 switch; any byte is a key. *)
Definition stimulus_valid (s : stimulus) : Prop :=
  match s with
  | Tick rx _ => rx_valid rx /\ switch_bool rx
  | Key _ => True
  end.

Definition is_tick (s : stimulus) : Prop :=
  match s with Tick _ _ => True | Key _ => False end.

Definition is_key (s : stimulus) : Prop :=
  match s with Key _ => True | Tick _ _ => False end.

(** What holds of the machine all the time it is running. *)
Definition running_invariant_holds (m : machine) : Prop :=
  pc m = RUNNING /\ irq m = true /\ motors_ok m /\
  one_mode (modes m) /\ is_s16 (set_yaw m).

(** The bucket of the selector, as a table. *)
Definition mode_bucket (pot : Z) : Z :=
  if pot <? 13 then 0
  else if pot <? 62 then 1
  else if pot <? 111 then 2
  else if pot <? 160 then 3
  else if pot <? 209 then 4
  else 5.

(** The board with other battery and temperature readings. *)
Definition with_supply (v3 v4 : Z) (b : board) : board :=
  with_adc_values (<[3%nat := v3]> (<[4%nat := v4]> (adc_values b))) b.

(** The board with another receiver state at the receiver check. *)
Definition with_receiver (no_signal throttle : Z) (b : board) : board :=
  mk_board (SREG b) (MCUCR b) (adc_values b) (adc_convert b) (cmps09_version b)
           (cmps09_mag_regs b) (cmps09_mag_calib b) (cmps09_acc_regs b)
           no_signal throttle (isqrt32 b).

(** * Properties *)

(** ** Wrap-around *)

Lemma signed_range (x : Z) : is_s16 (s16 x).
Proof.
  unfold is_s16, s16, signed.
  change (2 ^ (16 - 1)) with 32768; change (2 ^ 16) with 65536.
  pose proof (Z.mod_pos_bound (x + 32768) 65536). lia.
Qed.

Lemma signed_small (x : Z) : is_s16 x -> s16 x = x.
Proof.
  unfold is_s16, s16, signed.
  change (2 ^ (16 - 1)) with 32768; change (2 ^ 16) with 65536.
  intros H. rewrite Z.mod_small; lia.
Qed.

Lemma signed_add_l (x y : Z) : s16 (s16 x + y) = s16 (x + y).
Proof.
  unfold s16, signed.
  change (2 ^ (16 - 1)) with 32768; change (2 ^ 16) with 65536.
  f_equal.
  replace ((x + 32768) mod 65536 - 32768 + y + 32768)
    with ((x + 32768) mod 65536 + y) by lia.
  rewrite Zplus_mod_idemp_l. f_equal. lia.
Qed.

Lemma signed_add_r (x y : Z) : s16 (x + s16 y) = s16 (x + y).
Proof. rewrite (Z.add_comm x), signed_add_l. f_equal. lia. Qed.

Lemma signed32_small (x : Z) : is_s32 x -> s32 x = x.
Proof.
  unfold is_s32, s32, signed.
  change (2 ^ (32 - 1)) with 2147483648; change (2 ^ 32) with 4294967296.
  intros H. rewrite Z.mod_small; lia.
Qed.

Lemma unsigned16_small (x : Z) : 0 <= x < 65536 -> u16 x = x.
Proof. intros H. unfold u16, unsigned. apply Z.mod_small. exact H. Qed.

Lemma unsigned32_small (x : Z) : 0 <= x < 4294967296 -> u32 x = x.
Proof. intros H. unfold u32, unsigned. apply Z.mod_small. exact H. Qed.

Lemma unsigned8_small (x : Z) : 0 <= x < 256 -> u8 x = x.
Proof. intros H. unfold u8, unsigned. apply Z.mod_small. exact H. Qed.

Lemma CLAMP_range (x mi ma : Z) : mi <= ma -> mi <= CLAMP x mi ma <= ma.
Proof.
  intros H. unfold CLAMP.
  destruct (x <? mi) eqn:E1.
  - destruct (mi >? ma) eqn:E2; lia.
  - destruct (x >? ma) eqn:E2; lia.
Qed.

Lemma CLAMP_inside (x mi ma : Z) : mi <= x <= ma -> CLAMP x mi ma = x.
Proof.
  intros H. unfold CLAMP.
  destruct (x <? mi) eqn:E1; [lia|].
  destruct (x >? ma) eqn:E2; lia.
Qed.

(** ** The mixer's output range *)

Lemma command_range (x : Z) : 0 <= u16 (CLAMP x 0 32000) <= 32000.
Proof.
  pose proof (CLAMP_range x 0 32000 ltac:(lia)) as H.
  rewrite unsigned16_small; lia.
Qed.

(** C4. Whatever the receiver channels, the attitude estimate, the mode
    flags and the yaw setpoint are, [control_update] writes exactly four
    motor commands, to motors 0 to 3 in this order, and each lies in
    [0, 32000]. *)
Theorem control_update_commands_clamped (rx : rx_t) (h : ahrs_t) (m : machine) :
  exists a b c d,
    out (control_update rx h m) =
      out m ++ [Cli; Sei; ActuatorSet 0 a; ActuatorSet 1 b;
                ActuatorSet 2 c; ActuatorSet 3 d] /\
    0 <= a <= 32000 /\ 0 <= b <= 32000 /\ 0 <= c <= 32000 /\ 0 <= d <= 32000.
Proof.
  unfold control_update, emit, with_set_yaw, sei, cli; cbn [out modes set_yaw].
  do 4 eexists. split.
  - rewrite <- !app_assoc. reflexivity.
  - unfold control_locals; cbn [mot_a mot_b mot_c mot_d].
    repeat split; apply command_range.
Qed.

(** ** The yaw setpoint without heading-hold *)

(** C7. With heading-hold disabled, [control_update] leaves the yaw
    setpoint equal to the yaw estimate it captured in this round (angle
    plus twice the rate, as a 16-bit value); the yaw term mixed into the
    motors is computed from the yaw stick alone, 32 per step off centre,
    and neither depends on the setpoint carried in from the round before. *)
Theorem heading_hold_off_resets_setpoint (rx : rx_t) (h : ahrs_t) (m : machine) :
  mode_on (modes m) MODE_HEADINGHOLD_ENABLE = false ->
  let l := control_locals (modes m) (set_yaw m) rx h in
  let stick := if mode_on (modes m) MODE_PANTILT_ENABLE then 0x80 else rx_co_right rx in
  set_yaw (control_update rx h m) = cur_yaw l /\
  cur_yaw l = s16 (ahrs_yaw h + 2 * ahrs_yaw_rate h) /\
  dest_yaw l = s16 ((128 - stick) * 32) /\
  forall sy, control_locals (modes m) sy rx h = l.
Proof.
  intros Hoff l stick. subst l stick.
  unfold control_update, emit, with_set_yaw, sei, cli; cbn [out modes set_yaw].
  unfold control_locals. rewrite Hoff. cbn [set_yaw' cur_yaw dest_yaw].
  repeat split.
  - rewrite signed_add_r, Z.shiftl_mul_pow2 by lia. f_equal. lia.
  - rewrite !Z.shiftl_mul_pow2 by lia.
    replace (128 * 2 ^ 5) with (4096 + 0) by reflexivity.
    rewrite <- (Z.add_opp_r (4096 + 0)).
    set (s := if mode_on (modes m) MODE_PANTILT_ENABLE then 128 else rx_co_right rx).
    unfold s16, signed.
    change (2 ^ (16 - 1)) with 32768; change (2 ^ 16) with 65536; change (2 ^ 5) with 32.
    f_equal.
    replace (4096 + 0 + - ((s * 32 + 32768) mod 65536 - 32768) + 32768)
      with (4096 + 65536 - (s * 32 + 32768) mod 65536) by lia.
    rewrite <- Zminus_mod_idemp_r.
    rewrite Z.mod_mod by lia.
    rewrite Zminus_mod_idemp_r.
    replace (4096 + 65536 - (s * 32 + 32768)) with ((128 - s) * 32 + 32768 + 0 * 65536) by lia.
    rewrite Z.mod_add by lia. reflexivity.
Qed.

Lemma heading_hold_off_resets_setpoint_witness :
  set_yaw (control_update rx_neutral (mk_ahrs 0 0 0 0 1000 5) power_on) = 1010.
Proof.
  destruct (heading_hold_off_resets_setpoint rx_neutral (mk_ahrs 0 0 0 0 1000 5)
              power_on eq_refl) as (H1 & H2 & _).
  rewrite H1, H2. reflexivity.
Defined.

(** ** Easing *)

Lemma ease_inner (x : Z) : -0x400 < x < 0x400 -> ease x = x / 4.
Proof.
  intros H. unfold ease.
  destruct (x <? 0x400) eqn:E1; [|lia].
  destruct (x >? -0x400) eqn:E2; [|lia].
  cbn [andb]. rewrite Z.shiftr_div_pow2 by lia. change (2 ^ 2) with 4.
  apply signed_small. unfold is_s16. Z.div_mod_to_equations. lia.
Qed.

Lemma ease_upper (x : Z) : 0x400 <= x <= 32767 -> ease x = x - 0x300.
Proof.
  intros H. unfold ease.
  destruct (x <? 0x400) eqn:E1; [lia|]. cbn [andb].
  destruct (x >? 0) eqn:E2; [|lia].
  apply signed_small. unfold is_s16. lia.
Qed.

Lemma ease_lower (x : Z) : -32768 <= x <= -0x400 -> ease x = x + 0x300.
Proof.
  intros H. unfold ease.
  destruct (x >? -0x400) eqn:E1; [lia|]. rewrite andb_false_r.
  destruct (x >? 0) eqn:E2; [lia|].
  apply signed_small. unfold is_s16. lia.
Qed.

(** C9. The pitch error and the roll error go through one and the same
    easing law, and the law has no jump at the deadband boundary: at 0x400
    and at -0x400 the biased branch gives 0x100 and -0x100, which is what
    the shift by 2 gives there too; the last values inside the deadband,
    0x3ff and -0x3ff, give 0xff and -0x100; and over the whole 16-bit range
    the law never decreases and never moves by more than 1 when the error
    moves by 1. *)
Theorem ease_continuous_at_deadband :
  (forall md sy rx h, exists ep er,
     dest_pitch (control_locals md sy rx h) = ease ep /\
     dest_roll (control_locals md sy rx h) = ease er) /\
  ease 0x400 = 0x100 /\ Z.shiftr 0x400 2 = 0x100 /\
  ease (-0x400) = -0x100 /\ Z.shiftr (-0x400) 2 = -0x100 /\
  ease 0x3ff = 0xff /\ ease (-0x3ff) = -0x100 /\
  forall x, is_s16 x -> is_s16 (x + 1) -> 0 <= ease (x + 1) - ease x <= 1.
Proof.
  split; [intros md sy rx h; do 2 eexists; split; reflexivity|].
  repeat (split; [reflexivity|]).
  intros x [Hl _] [_ Hh].
  destruct (Z_lt_le_dec x (-0x400)) as [A|A].
  - rewrite (ease_lower x) by lia.
    rewrite (ease_lower (x + 1)) by lia. lia.
  - destruct (Z.eq_dec x (-0x400)) as [->|B]; [vm_compute; split; discriminate|].
    destruct (Z_lt_le_dec (x + 1) 0x400) as [C|C].
    + rewrite (ease_inner x), (ease_inner (x + 1)) by lia.
      Z.div_mod_to_equations. lia.
    + destruct (Z.eq_dec (x + 1) 0x400) as [D|D].
      * replace x with 0x3ff by lia. vm_compute; split; discriminate.
      * rewrite (ease_upper x), (ease_upper (x + 1)) by lia. lia.
Qed.

Lemma ease_continuous_at_deadband_witness :
  0 <= ease (0x3ff + 1) - ease 0x3ff <= 1.
Proof.
  destruct ease_continuous_at_deadband as (_ & _ & _ & _ & _ & _ & _ & H).
  apply H; unfold is_s16; lia.
Defined.

(** ** The console handler *)

Lemma motors_ok_lookup (m : machine) (n : nat) :
  motors_ok m -> (n < 4)%nat -> is_u8 (motor m !!! n).
Proof.
  intros [Hlen Hall] Hn.
  apply Forall_lookup_total_1; [exact Hall | lia].
Qed.

Lemma with_motor_same (m : machine) : with_motor (motor m) m = m.
Proof. destruct m; reflexivity. Qed.

Lemma motor_shift (x : Z) : is_u8 x -> u16 (Z.shiftl x 8) = x * 256.
Proof.
  intros H. rewrite Z.shiftl_mul_pow2 by lia. change (2 ^ 8) with 256.
  apply unsigned16_small. unfold is_u8 in H. lia.
Qed.

Lemma MOTOR_DOWN_spec (n : nat) (m : machine) :
  motors_ok m -> (n < 4)%nat ->
  let x := key_step true (motor m !!! n) in
  MOTOR_DOWN n m =
    emit [ActuatorSet n (x * 256)] (with_motor (<[n := x]> (motor m)) m).
Proof.
  intros Hok Hn x. subst x.
  pose proof (motors_ok_lookup m n Hok Hn) as Hx.
  destruct Hok as [Hlen _]. unfold is_u8 in Hx.
  unfold MOTOR_DOWN, key_step, actuator_set.
  destruct (motor m !!! n >? 0) eqn:E.
  - cbn [motor with_motor].
    rewrite list_lookup_total_insert_eq by lia.
    rewrite unsigned8_small by lia.
    rewrite motor_shift by (unfold is_u8; lia).
    replace (Z.max 0 (motor m !!! n - 1)) with (motor m !!! n - 1) by lia.
    reflexivity.
  - replace (Z.max 0 (motor m !!! n - 1)) with (motor m !!! n) by lia.
    rewrite motor_shift by (unfold is_u8; lia).
    rewrite list_insert_id by (apply list_lookup_lookup_total_lt; lia).
    rewrite with_motor_same. reflexivity.
Qed.

Lemma MOTOR_UP_spec (n : nat) (m : machine) :
  motors_ok m -> (n < 4)%nat ->
  let x := key_step false (motor m !!! n) in
  MOTOR_UP n m =
    emit [ActuatorSet n (x * 256)] (with_motor (<[n := x]> (motor m)) m).
Proof.
  intros Hok Hn x. subst x.
  pose proof (motors_ok_lookup m n Hok Hn) as Hx.
  destruct Hok as [Hlen _]. unfold is_u8 in Hx.
  unfold MOTOR_UP, key_step, actuator_set.
  destruct (motor m !!! n <? 255) eqn:E.
  - cbn [motor with_motor].
    rewrite list_lookup_total_insert_eq by lia.
    rewrite unsigned8_small by lia.
    rewrite motor_shift by (unfold is_u8; lia).
    replace (Z.min 255 (motor m !!! n + 1)) with (motor m !!! n + 1) by lia.
    reflexivity.
  - replace (Z.min 255 (motor m !!! n + 1)) with (motor m !!! n) by lia.
    rewrite motor_shift by (unfold is_u8; lia).
    rewrite list_insert_id by (apply list_lookup_lookup_total_lt; lia).
    rewrite with_motor_same. reflexivity.
Qed.

Lemma key_step_range (down : bool) (x : Z) : is_u8 x -> is_u8 (key_step down x).
Proof. unfold is_u8, key_step. destruct down; lia. Qed.

(** The [switch] agrees with the table. *)
Lemma handle_switch_table (ch : ascii) (m : machine) :
  handle_switch ch m =
    match key_target ch with
    | Some (n, true) => Some (MOTOR_DOWN n m)
    | Some (n, false) => Some (MOTOR_UP n m)
    | None => None
    end.
Proof.
  destruct ch as [[] [] [] [] [] [] [] []]; reflexivity.
Qed.

Lemma key_target_index (ch : ascii) (n : nat) (d : bool) :
  key_target ch = Some (n, d) -> (n < 4)%nat.
Proof.
  unfold key_target.
  repeat match goal with
         | |- context [Ascii.eqb ch ?c] => destruct (Ascii.eqb ch c)
         end; intros H; inversion H; lia.
Qed.

(** What one console byte does, given a well-formed [motor] array. *)
Lemma handle_input_spec (ch : ascii) (m : machine) :
  motors_ok m ->
  match key_target ch with
  | Some (n, down) =>
    let x := key_step down (motor m !!! n) in
    motor (handle_input ch m) = <[n := x]> (motor m) /\
    out (handle_input ch m) =
      out m ++ [ActuatorSet n (x * 256); Sei;
                SerialDec8 (<[n := x]> (motor m) !!! 0%nat);
                SerialDec8 (<[n := x]> (motor m) !!! 1%nat);
                SerialDec8 (<[n := x]> (motor m) !!! 2%nat);
                SerialDec8 (<[n := x]> (motor m) !!! 3%nat); SerialEol]
  | None => handle_input ch m = m
  end.
Proof.
  intros Hok. unfold handle_input. rewrite handle_switch_table.
  destruct (key_target ch) as [[n down]|] eqn:E; [|reflexivity].
  pose proof (key_target_index ch n down E) as Hn.
  destruct down.
  - rewrite (MOTOR_DOWN_spec n m Hok Hn).
    unfold show_state, sei, emit, with_motor; cbn [motor out].
    split; [reflexivity|]. rewrite <- !app_assoc. reflexivity.
  - rewrite (MOTOR_UP_spec n m Hok Hn).
    unfold show_state, sei, emit, with_motor; cbn [motor out].
    split; [reflexivity|]. rewrite <- !app_assoc. reflexivity.
Qed.

(** A console byte never starts the actuator driver, whatever the state. *)
Lemma handle_input_never_starts (ch : ascii) (m : machine) :
  exists tr, out (handle_input ch m) = out m ++ tr /\
             Forall (fun e => e <> ActuatorsStart) tr.
Proof.
  unfold handle_input. rewrite handle_switch_table.
  destruct (key_target ch) as [[n []]|].
  - unfold MOTOR_DOWN, actuator_set, show_state, sei, emit.
    destruct (motor m !!! n >? 0); cbn [out motor with_motor];
      eexists; (split; [rewrite <- !app_assoc; reflexivity|]);
      repeat (constructor; [discriminate|]); constructor.
  - unfold MOTOR_UP, actuator_set, show_state, sei, emit.
    destruct (motor m !!! n <? 255); cbn [out motor with_motor];
      eexists; (split; [rewrite <- !app_assoc; reflexivity|]);
      repeat (constructor; [discriminate|]); constructor.
  - exists []. split; [rewrite app_nil_r; reflexivity | constructor].
Qed.

(** C10. Every console byte keeps the four motor test values in [0, 255]:
    a/s/d/f lower the value of motor 0/1/2/3 by one but not below 0,
    q/w/e/r raise it by one but not above 255, any other byte changes
    nothing at all; an accepted key at once hands the motor's new value
    times 256 to [actuator_set]; and that value does reach 65280, above
    the mixer's bound of 32000 (255 times q after a successful boot). *)
Theorem handle_input_keeps_motor_bytes :
  (forall (ch : ascii) (m : machine),
     motors_ok m ->
     motors_ok (handle_input ch m) /\
     match key_target ch with
     | Some (n, down) =>
       let x := key_step down (motor m !!! n) in
       0 <= x <= 255 /\
       motor (handle_input ch m) = <[n := x]> (motor m) /\
       exists rest,
         out (handle_input ch m) = out m ++ ActuatorSet n (x * 256) :: rest
     | None => handle_input ch m = m
     end) /\
  (exists m,
     main board_at_rest (repeat (Key "q") 255) = Ret tt m /\
     motor m = [255; 0; 0; 0] /\
     last_events 7 m =
       [ActuatorSet 0 65280; Sei; SerialDec8 255; SerialDec8 0;
        SerialDec8 0; SerialDec8 0; SerialEol] /\
     65280 > 32000).
Proof.
  split.
  - intros ch m Hok.
    pose proof (handle_input_spec ch m Hok) as H.
    destruct (key_target ch) as [[n down]|] eqn:E.
    + pose proof (key_target_index ch n down E) as Hn.
      pose proof (key_step_range down _ (motors_ok_lookup m n Hok Hn)) as Hx.
      cbv zeta in H. destruct H as [Hm Ho].
      split; [|cbv zeta; split; [exact Hx | split; [exact Hm | eauto]]].
      destruct Hok as [Hlen Hall]. unfold motors_ok. rewrite Hm.
      split; [rewrite length_insert; exact Hlen | apply Forall_insert; assumption].
    + rewrite H. split; [exact Hok | reflexivity].
  - eexists. split; [vm_compute; reflexivity|].
    split; [reflexivity|]. split; [vm_compute; reflexivity | lia].
Qed.

Lemma handle_input_keeps_motor_bytes_witness :
  motors_ok (handle_input "r" (with_motor [0; 0; 0; 255] power_on)).
Proof.
  destruct handle_input_keeps_motor_bytes as [H _].
  apply (H "r"%char (with_motor [0; 0; 0; 255] power_on)).
  split; [reflexivity|].
  unfold is_u8; cbn [motor with_motor]. repeat constructor; lia.
Defined.

(** ** The mode switch *)

Lemma mode_index_range (pot : Z) : is_u8 pot -> 0 <= mode_index pot <= 5.
Proof.
  unfold is_u8, mode_index. intros H.
  rewrite (unsigned16_small pot) by lia.
  rewrite (unsigned16_small (pot + 36)) by lia.
  rewrite unsigned8_small; Z.div_mod_to_equations; lia.
Qed.

Lemma mode_index_formula (pot : Z) : is_u8 pot -> mode_index pot = (pot + 36) / 49.
Proof.
  unfold is_u8, mode_index. intros H.
  rewrite (unsigned16_small pot) by lia.
  rewrite (unsigned16_small (pot + 36)) by lia.
  apply unsigned8_small. Z.div_mod_to_equations; lia.
Qed.

Lemma modes_update_no_edge (rx : rx_t) (m : machine) :
  rx_gyro_sw rx = prev_sw m -> modes_update rx m = m.
Proof. intros H. unfold modes_update. rewrite H, Z.eqb_refl. reflexivity. Qed.

Lemma unsigned8_bits (x i : Z) :
  0 <= i -> Z.testbit (u8 x) i = (i <? 8) && Z.testbit x i.
Proof.
  intros Hi. unfold u8, unsigned.
  destruct (i <? 8) eqn:E.
  - rewrite Z.mod_pow2_bits_low by lia. reflexivity.
  - rewrite Z.mod_pow2_bits_high by lia. reflexivity.
Qed.

(** On a switch edge, bit by bit: only the bit at the selector's index can
    be set afterwards, and it is set when the switch is now on or when it
    was set before. *)
Lemma modes_update_edge_bits (rx : rx_t) (m : machine) (i : Z) :
  is_u8 (rx_right_pot rx) -> switch_bool rx ->
  rx_gyro_sw rx <> prev_sw m -> 0 <= i ->
  let num := mode_index (rx_right_pot rx) in
  prev_sw (modes_update rx m) = rx_gyro_sw rx /\
  Z.testbit (modes (modes_update rx m)) i =
    (i =? num) && (Z.testbit (modes m) num || (rx_gyro_sw rx =? 1)).
Proof.
  intros Hpot Hsw Hedge Hi num.
  pose proof (mode_index_range _ Hpot) as Hnum. fold num in Hnum.
  unfold modes_update.
  destruct (rx_gyro_sw rx =? prev_sw m) eqn:E; [lia|].
  cbn [modes prev_sw with_modes with_prev_sw]. fold num.
  split; [reflexivity|].
  rewrite unsigned8_bits, Z.lor_spec, unsigned8_bits, Z.land_spec by lia.
  rewrite (Z.shiftl_mul_pow2 1), Z.mul_1_l, Z.pow2_bits_eqb by lia.
  rewrite Z.shiftl_spec by lia.
  destruct (Z.eqb_spec num i) as [->|Hne].
  - rewrite Z.sub_diag, Z.eqb_refl.
    replace (i <? 8) with true by lia.
    destruct Hsw as [-> | ->]; cbn; rewrite ?andb_true_r, ?orb_false_r, ?orb_true_r;
      reflexivity.
  - replace (i =? num) with false by lia.
    rewrite andb_false_r, andb_false_r, orb_false_l, andb_false_l.
    destruct Hsw as [-> | ->].
    + rewrite Z.bits_0, andb_false_r. reflexivity.
    + destruct (Z_lt_le_dec i num).
      * rewrite Z.testbit_neg_r by lia. apply andb_false_r.
      * replace (Z.testbit 1 (i - num)) with false; [apply andb_false_r|].
        symmetry. change 1 with (2 ^ 0). rewrite Z.pow2_bits_eqb by lia. lia.
Qed.

(** C3, on the code. From power-on: the switch goes on with the selector
    at 49 (index 1), which sets mode bit 1; the switch then goes off with
    the selector unmoved, and [modes_update] records the new switch value 0
    but leaves bit 1 set. *)
Theorem modes_update_switch_off_keeps_bit :
  let on := mk_rx 1 49 128 128 128 0 in
  let off := mk_rx 0 49 128 128 128 0 in
  let m1 := modes_update on power_on in
  let m2 := modes_update off m1 in
  mode_index 49 = 1 /\
  modes m1 = 2 /\ prev_sw m1 = 1 /\
  prev_sw m2 = 0 /\ modes m2 = 2 /\ Z.testbit (modes m2) 1 = true.
Proof. vm_compute. repeat split; reflexivity. Qed.

(** ** The loops of [setup] *)

Lemma emit_emit (a b : list event) (m : machine) :
  emit a (emit b m) = emit (b ++ a) m.
Proof. unfold emit; cbn. rewrite <- app_assoc. reflexivity. Qed.

Lemma emit_nil (m : machine) : emit [] m = m.
Proof. destruct m; unfold emit; cbn. rewrite app_nil_r. reflexivity. Qed.

Lemma gyro_while_step (fuel : nat) (b : board) (k : nat) (cnt : Z) (adc : list Z) :
  gyro_while (S fuel) b k cnt adc =
    if gyro_cond adc then
      if cnt <? 20 then
        bind (say [AdcConvert 0; AdcConvert 1; AdcConvert 2])
             (fun _ => gyro_while fuel b (S k) (u8 (cnt + 1)) (gyro_body b k adc))
      else ret (u8 (cnt + 1), adc)
    else ret (cnt, adc).
Proof. reflexivity. Qed.

Lemma gyro_exit_step (b : board) (n k : nat) :
  gyro_exit b (S n) k =
    if gyro_cond (gyro_readings b k)
    then (fst (gyro_exit b n (S k)), S (snd (gyro_exit b n (S k))))
    else (k, O).
Proof. reflexivity. Qed.

Lemma gyro_while_exit (b : board) (n : nat) :
  forall (k : nat) (m : machine),
    (k + n = 20)%nat ->
    gyro_while (S n) b k (Z.of_nat k) (gyro_readings b k) m =
      Ret (Z.of_nat (fst (gyro_exit b n k)),
           gyro_readings b (k + snd (gyro_exit b n k)))
          (emit (gyro_polls (snd (gyro_exit b n k))) m).
Proof.
  induction n as [|n IH]; intros k m Hk.
  - cbn [gyro_while gyro_exit].
    destruct (gyro_cond (gyro_readings b k)) eqn:E; cbn [fst snd].
    + replace (Z.of_nat k <? 20) with false by lia.
      unfold ret. rewrite Nat.add_0_r, emit_nil.
      rewrite unsigned8_small by lia. do 2 f_equal. lia.
    + unfold ret. rewrite Nat.add_0_r, emit_nil. reflexivity.
  - rewrite gyro_while_step, gyro_exit_step.
    destruct (gyro_cond (gyro_readings b k)) eqn:E; cbn [fst snd].
    + replace (Z.of_nat k <? 20) with true by lia.
      unfold bind, say, act.
      rewrite unsigned8_small by lia.
      replace (Z.of_nat k + 1) with (Z.of_nat (S k)) by lia.
      change (gyro_body b k (gyro_readings b k)) with (gyro_readings b (S k)).
      rewrite IH by lia. rewrite emit_emit.
      replace (k + S (snd (gyro_exit b n (S k))))%nat
        with (S k + snd (gyro_exit b n (S k)))%nat by lia.
      reflexivity.
    + unfold ret. rewrite Nat.add_0_r, emit_nil. reflexivity.
Qed.

(** The loop runs to [cnt = 21] exactly when every reading it evaluates,
    from round [k] on, is in the band. *)
Lemma gyro_exit_pass (b : board) (n : nat) :
  forall k : nat,
    (forall j, (k <= j <= k + n)%nat -> gyro_cond (gyro_readings b j) = true) ->
    gyro_exit b n k = (S (k + n), n).
Proof.
  induction n as [|n IH]; intros k H.
  - cbn [gyro_exit]. rewrite H by lia. f_equal. lia.
  - rewrite gyro_exit_step. rewrite H by lia. rewrite IH by (intros j Hj; apply H; lia).
    cbn [fst snd]. f_equal. lia.
Qed.

(** It stops at the first reading out of the band, with [cnt] the number
    of rounds polled until then. *)
Lemma gyro_exit_fail (b : board) (n : nat) :
  forall k j : nat,
    (k <= j <= k + n)%nat ->
    gyro_cond (gyro_readings b j) = false ->
    (forall i, (k <= i < j)%nat -> gyro_cond (gyro_readings b i) = true) ->
    gyro_exit b n k = (j, (j - k)%nat).
Proof.
  induction n as [|n IH]; intros k j Hj Hbad Hgood.
  - cbn [gyro_exit]. replace j with k in * by lia. rewrite Hbad. f_equal. lia.
  - rewrite gyro_exit_step. destruct (Nat.eq_dec j k) as [->|Hne].
    + rewrite Hbad. f_equal. lia.
    + rewrite Hgood by lia.
      rewrite (IH (S k) j) by (try lia; try assumption; intros i Hi; apply Hgood; lia).
      cbn [fst snd]. f_equal. lia.
Qed.

Lemma gyro_exit_le (b : board) (n : nat) :
  forall k : nat, (fst (gyro_exit b n k) <= S (k + n))%nat.
Proof.
  induction n as [|n IH]; intros k.
  - cbn [gyro_exit]. destruct (gyro_cond (gyro_readings b k)); cbn [fst]; lia.
  - rewrite gyro_exit_step.
    destruct (gyro_cond (gyro_readings b k)); cbn [fst]; [|lia].
    specialize (IH (S k)). lia.
Qed.

Lemma gyro_ok_all (b : board) :
  gyro_ok b = true <->
  forall j, (j <= 20)%nat -> gyro_cond (gyro_readings b j) = true.
Proof.
  unfold gyro_ok. rewrite forallb_forall. split.
  - intros H j Hj. apply H. apply in_seq. lia.
  - intros H j Hj. apply H. apply in_seq in Hj. lia.
Qed.

(** A failing gyro check has a first reading out of the band. *)
Lemma gyro_first_bad (b : board) :
  gyro_ok b = false ->
  exists j, (j <= 20)%nat /\ gyro_cond (gyro_readings b j) = false /\
            forall i, (i < j)%nat -> gyro_cond (gyro_readings b i) = true.
Proof.
  intros H.
  assert (G : forall n,
             (forall i, (i < n)%nat -> gyro_cond (gyro_readings b i) = true) \/
             exists j, (j < n)%nat /\ gyro_cond (gyro_readings b j) = false /\
                       forall i, (i < j)%nat -> gyro_cond (gyro_readings b i) = true).
  { induction n as [|n [IH|IH]].
    - left. intros i Hi. lia.
    - destruct (gyro_cond (gyro_readings b n)) eqn:E.
      + left. intros i Hi. destruct (Nat.eq_dec i n) as [->|]; [exact E | apply IH; lia].
      + right. exists n. repeat split; [lia | exact E | exact IH].
    - right. destruct IH as (j & Hj & Hb & Hg). exists j. repeat split; [lia | exact Hb | exact Hg]. }
  destruct (G 21%nat) as [All|(j & Hj & Hb & Hg)].
  - assert (gyro_ok b = true) by (apply gyro_ok_all; intros j Hj; apply All; lia).
    congruence.
  - exists j. repeat split; [lia | exact Hb | exact Hg].
Qed.

Lemma acc_for_run (b : board) (n : nat) :
  forall (k : nat) (len : Z) (m : machine),
    acc_for n b k len m =
      Ret (fold_left (fun len k => acc_round (cmps09_acc_regs b k) len) (seq k n) len)
          (emit (acc_reads n) m).
Proof.
  induction n as [|n IH]; intros k len m.
  - cbn. unfold ret. rewrite emit_nil. reflexivity.
  - cbn [acc_for seq fold_left]. unfold bind, say, act.
    rewrite IH, !emit_emit. reflexivity.
Qed.

(** ** The stages of [setup] *)

Lemma went_on_emit (tr : list event) (m : machine) : went_on m (emit tr m) tr.
Proof. unfold went_on, emit; cbn. repeat split. Qed.

Lemma halted_after_halt (tr : list event) (m : machine) :
  halted_after m (halt (emit tr m)) tr.
Proof.
  unfold halted_after, halt, with_pc, emit, cli; cbn.
  repeat split. rewrite <- !app_assoc. reflexivity.
Qed.

Lemma went_on_trans (m m1 m2 : machine) (t1 t2 : list event) :
  went_on m m1 t1 -> went_on m1 m2 t2 -> went_on m m2 (t1 ++ t2).
Proof.
  unfold went_on. intros (A1 & A2 & A3 & A4 & A5 & A6) (B1 & B2 & B3 & B4 & B5 & B6).
  repeat split; try congruence.
  rewrite B6, A6, app_assoc. reflexivity.
Qed.

Lemma went_on_halted (m m1 m2 : machine) (t1 t2 : list event) :
  went_on m m1 t1 -> halted_after m1 m2 t2 -> halted_after m m2 (t1 ++ t2).
Proof.
  unfold went_on, halted_after.
  intros (A1 & A2 & A3 & A4 & A5 & A6) (B1 & B2 & B3 & B4 & B5 & B6 & B7).
  repeat split; try congruence.
  rewrite B7, A6, <- !app_assoc. reflexivity.
Qed.

Lemma stage_emit {A} (tr : list event) (a : A) (ok : bool) :
  Forall quiet_event tr ->
  stage (fun m => if ok then Ret a (emit tr m) else Dead (halt (emit tr m))) ok a.
Proof.
  intros Hq m. destruct ok.
  - exists (emit tr m), tr. split; [exact Hq|].
    split; [reflexivity | split; [apply went_on_emit | reflexivity]].
  - exists (halt (emit tr m)), tr. split; [exact Hq|].
    split; [reflexivity | apply halted_after_halt].
Qed.

Lemma stage_ext {A} (p q : prog A) (ok : bool) (a : A) :
  (forall m, p m = q m) -> stage q ok a -> stage p ok a.
Proof.
  intros E H m. destruct (H m) as (m' & tr & Hq & Hr).
  exists m', tr. split; [exact Hq|]. rewrite E. exact Hr.
Qed.

Lemma stage_bind {A B} (p : prog A) (k : A -> prog B)
      (ok1 ok2 : bool) (a : A) (r : B) :
  stage p ok1 a -> stage (k a) ok2 r -> stage (bind p k) (ok1 && ok2) r.
Proof.
  intros Hp Hk m. unfold bind.
  destruct (Hp m) as (m1 & t1 & Q1 & H1).
  destruct ok1; cbn [andb].
  - destruct H1 as (E1 & W1 & I1). rewrite E1.
    destruct (Hk m1) as (m2 & t2 & Q2 & H2).
    exists m2, (t1 ++ t2). split; [apply Forall_app; split; assumption|].
    destruct ok2.
    + destruct H2 as (E2 & W2 & I2).
      split; [exact E2 | split; [eapply went_on_trans; eassumption | congruence]].
    + destruct H2 as [E2 W2]. split; [exact E2 | eapply went_on_halted; eassumption].
  - destruct H1 as [E1 W1]. rewrite E1.
    exists m1, t1. split; [exact Q1 | split; [reflexivity | exact W1]].
Qed.

Lemma gyro_polls_quiet (n : nat) : Forall quiet_event (gyro_polls n).
Proof.
  unfold gyro_polls. induction n as [|n IH]; cbn; [constructor|].
  repeat (constructor; [exact I|]). exact IH.
Qed.

Lemma acc_reads_quiet (n : nat) : Forall quiet_event (acc_reads n).
Proof.
  unfold acc_reads. induction n as [|n IH]; cbn; [constructor|].
  repeat (constructor; [exact I|]). exact IH.
Qed.

Ltac quiet := repeat first [ exact I | apply gyro_polls_quiet | apply acc_reads_quiet
                           | apply Forall_nil_2 | apply Forall_cons_2
                           | apply Forall_app_2 ].

Lemma check_revision_run (b : board) (m : machine) :
  let tr := [CmpsRead 0 1; SerialStr "Magnetometer revision:";
             SerialHex16 (cmps09_version b); SerialEol] in
  check_revision b m =
    if revision_ok b then Ret tt (emit tr m) else Dead (halt (emit tr m)).
Proof.
  unfold check_revision, revision_ok, bind, say, act, die, ret.
  rewrite emit_emit. destruct (cmps09_version b =? 2); reflexivity.
Qed.

(** The gyro check, with the rounds it polls: the loop stops at the first
    reading out of the band, and anything short of [cnt = 21] is fatal. *)
Lemma check_gyro_run (b : board) (m : machine) :
  let cnt := fst (gyro_exit b 20 0) in
  let rounds := snd (gyro_exit b 20 0) in
  let head := SerialStr "Checking if gyro readings in range.. " :: gyro_polls rounds in
  check_gyro b m =
    if (cnt <? 21)%nat then Dead (halt (emit head m))
    else Ret tt (emit (head ++ [SerialStr "yep"; SerialEol]) m).
Proof.
  intros cnt rounds head. subst cnt rounds head.
  unfold check_gyro. unfold bind at 1. unfold say, act.
  unfold bind at 1.
  change (adc_values b) with (gyro_readings b 0).
  rewrite (gyro_while_exit b 20 0) by reflexivity. cbn [fst].
  unfold bind, die, ret. rewrite !emit_emit.
  destruct (Nat.ltb_spec (fst (gyro_exit b 20 0)) 21).
  - replace (Z.of_nat (fst (gyro_exit b 20 0)) <? 21) with true by lia. reflexivity.
  - replace (Z.of_nat (fst (gyro_exit b 20 0)) <? 21) with false by lia.
    rewrite emit_emit. reflexivity.
Qed.

Lemma gyro_exit_ok (b : board) :
  (fst (gyro_exit b 20 0) <? 21)%nat = negb (gyro_ok b).
Proof.
  destruct (gyro_ok b) eqn:E.
  - rewrite gyro_exit_pass; [reflexivity|].
    intros j Hj. apply gyro_ok_all; [exact E | lia].
  - destruct (gyro_first_bad b E) as (j & Hj & Hb & Hg).
    rewrite (gyro_exit_fail b 20 0 j); cbn [fst negb].
    + apply Nat.ltb_lt. lia.
    + lia.
    + exact Hb.
    + intros i Hi. apply Hg. lia.
Qed.

Lemma check_magnetic_run (b : board) (m : machine) :
  let tr := [SerialStr "Checking magnetic field magnitude.. "; CmpsRead 10 6;
             SerialFp32 (mag_len b) 1000; SerialStr " T"; SerialEol] in
  check_magnetic b m =
    if magnetic_ok b then Ret (mag_len b) (emit tr m) else Dead (halt (emit tr m)).
Proof.
  unfold check_magnetic, magnetic_ok, bind, say, act, die, ret.
  fold (mag_len b). rewrite !emit_emit. cbn [app].
  destruct (Z.leb_spec 300 (mag_len b)), (Z.leb_spec (mag_len b) 600); cbn [andb].
  - replace (mag_len b >? 600) with false by lia.
    replace (mag_len b <? 300) with false by lia. reflexivity.
  - replace (mag_len b >? 600) with true by lia. reflexivity.
  - replace (mag_len b <? 300) with true by lia. rewrite orb_true_r. reflexivity.
  - replace (mag_len b >? 600) with true by lia. reflexivity.
Qed.

Lemma check_accel_run (b : board) (m : machine) :
  let tr := SerialStr "Checking accelerometer readings.. " :: acc_reads 16 ++
            [SerialFp32 (acc_len b) 0x4050; SerialStr " g"; SerialEol] in
  check_accel b (mag_len b) m =
    if accel_ok b then Ret tt (emit tr m) else Dead (halt (emit tr m)).
Proof.
  unfold check_accel, accel_ok, acc_len, acc_sum. unfold bind at 1. unfold say, act.
  unfold bind at 1. rewrite acc_for_run.
  set (L := u32 (Z.shiftr (u32 (isqrt32 b (fold_left _ _ _) + 1)) 1)).
  set (R := acc_reads 16).
  unfold bind, die, ret. rewrite !emit_emit.
  change ([SerialStr "Checking accelerometer readings.. "] ++
          R ++ [SerialFp32 L 16464; SerialStr " g"; SerialEol])
    with (SerialStr "Checking accelerometer readings.. " ::
          R ++ [SerialFp32 L 16464; SerialStr " g"; SerialEol]).
  destruct (Z.leb_spec 0x3f00 L), (Z.leb_spec L 0x4070); cbn [andb].
  - replace (L >? 0x4070) with false by lia.
    replace (L <? 0x3f00) with false by lia. reflexivity.
  - replace (L >? 0x4070) with true by lia. reflexivity.
  - replace (L <? 0x3f00) with true by lia. rewrite orb_true_r. reflexivity.
  - replace (L >? 0x4070) with true by lia. reflexivity.
Qed.

Lemma check_receiver_run (b : board) (m : machine) :
  let head := [SerialStr "Receiver signal: ";
               SerialStr (if negb (rx_no_signal b =? 0) then "NOPE" else "yep");
               SerialEol] in
  check_receiver b m =
    if receiver_ok b then Ret tt (emit head m)
    else Dead (halt (emit (head ++
           [SerialStr ("Throttle stick is not in the bottom position" ++ CRLF)]) m)).
Proof.
  unfold check_receiver, receiver_ok, bind, say, act, die, ret.
  destruct ((rx_no_signal b =? 0) && (rx_throttle b >? 5)); cbn [negb];
    rewrite ?emit_emit; reflexivity.
Qed.

Lemma stage_report_supply (b : board) : stage (report_supply b) true tt.
Proof.
  intros m. unfold report_supply, bind, say, act. rewrite emit_emit.
  do 2 eexists.
  split; [|split; [reflexivity | split; [apply went_on_emit | reflexivity]]]. quiet.
Qed.

Lemma stage_check_revision (b : board) : stage (check_revision b) (revision_ok b) tt.
Proof.
  eapply stage_ext; [intros m; apply check_revision_run|].
  apply stage_emit. quiet.
Qed.

Lemma stage_check_gyro (b : board) : stage (check_gyro b) (gyro_ok b) tt.
Proof.
  intros m. rewrite check_gyro_run. cbv zeta. rewrite gyro_exit_ok.
  destruct (gyro_ok b); cbn [negb]; do 2 eexists.
  - split; [|split; [reflexivity | split; [apply went_on_emit | reflexivity]]]. quiet.
  - split; [|split; [reflexivity | apply halted_after_halt]]. quiet.
Qed.

Lemma stage_check_magnetic (b : board) :
  stage (check_magnetic b) (magnetic_ok b) (mag_len b).
Proof.
  eapply stage_ext; [intros m; apply check_magnetic_run|].
  apply stage_emit. quiet.
Qed.

Lemma stage_check_accel (b : board) :
  stage (check_accel b (mag_len b)) (accel_ok b) tt.
Proof.
  eapply stage_ext; [intros m; apply check_accel_run|].
  apply stage_emit. quiet.
Qed.

Lemma stage_check_receiver (b : board) : stage (check_receiver b) (receiver_ok b) tt.
Proof.
  intros m. rewrite check_receiver_run. cbv zeta.
  destruct (receiver_ok b); do 2 eexists.
  - split; [|split; [reflexivity | split; [apply went_on_emit | reflexivity]]]. quiet.
  - split; [|split; [reflexivity | apply halted_after_halt]]. quiet.
Qed.

(** The sanity checks go through exactly when the five conditions hold,
    and are quiet either way. *)
Lemma stage_sanity_checks (b : board) : stage (sanity_checks b) (checks_pass b) tt.
Proof.
  replace (checks_pass b)
    with (true && (revision_ok b && (gyro_ok b && (magnetic_ok b &&
            (accel_ok b && receiver_ok b)))))
    by (unfold checks_pass;
        destruct (revision_ok b), (gyro_ok b), (magnetic_ok b), (accel_ok b),
                 (receiver_ok b); reflexivity).
  unfold sanity_checks.
  eapply stage_bind; [apply stage_report_supply|].
  eapply stage_bind; [apply stage_check_revision|].
  eapply stage_bind; [apply stage_check_gyro|].
  eapply stage_bind; [apply stage_check_magnetic|].
  eapply stage_bind; [apply stage_check_accel|].
  apply stage_check_receiver.
Qed.

Lemma setup_init_run (b : board) (m : machine) :
  exists m1 tr,
    setup_init b m = Ret tt m1 /\ went_on m m1 tr /\ irq m1 = true /\
    Forall quiet_event tr.
Proof.
  unfold setup_init, bind, say, act. do 2 eexists.
  split; [reflexivity|]. split; [|split; [reflexivity|]].
  - unfold went_on, emit, sei; cbn. repeat split.
    rewrite <- !app_assoc. reflexivity.
  - quiet.
Qed.

(** Once halted with interrupts off, nothing moves the machine. *)
Lemma halted_absorbing (m : machine) (ss : list stimulus) :
  pc m = HALTED -> irq m = false -> run m ss = m.
Proof.
  intros Hpc Hirq. unfold run. induction ss as [|s ss IH]; [reflexivity|].
  cbn [fold_left].
  replace (react m s) with m; [exact IH|].
  destruct s; cbn [react]; [rewrite Hpc | rewrite Hirq]; reflexivity.
Qed.

(** ** The boot gate *)

(** C1. If any of the five sanity checks fails, [setup] ends in [die]:
    interrupts are disabled, the last thing written is "ERROR", and the
    machine is halted for good - whatever ticks and console bytes follow,
    its state and output stay as they are.  Nothing before the halt started
    the actuator driver or commanded a motor, so neither ever happens. *)
Theorem failed_check_halts_for_ever (b : board) :
  revision_ok b = false \/ gyro_ok b = false \/ magnetic_ok b = false \/
  accel_ok b = false \/ receiver_ok b = false ->
  exists m tr,
    setup b power_on = Dead m /\
    pc m = HALTED /\ irq m = false /\
    out m = tr ++ [Cli; SerialStr "ERROR"] /\ Forall quiet_event tr /\
    motor m = [0; 0; 0; 0] /\
    forall ss, run m ss = m /\ main b ss = Dead m.
Proof.
  intros Hfail.
  assert (Hno : checks_pass b = false).
  { unfold checks_pass.
    destruct Hfail as [H|[H|[H|[H|H]]]]; rewrite H;
      rewrite ?andb_false_r; reflexivity. }
  destruct (setup_init_run b power_on) as (m1 & t1 & E1 & W1 & _ & Q1).
  destruct (stage_sanity_checks b m1) as (m2 & t2 & Q2 & H2).
  rewrite Hno in H2. destruct H2 as [E2 W2].
  pose proof (went_on_halted _ _ _ _ _ W1 W2) as (P1 & P2 & P3 & _ & _ & _ & P7).
  assert (Hs : setup b power_on = Dead m2).
  { unfold setup, bind. rewrite E1, E2. reflexivity. }
  exists m2, (t1 ++ t2).
  repeat split; try assumption.
  - apply Forall_app; split; assumption.
  - apply halted_absorbing; assumption.
  - unfold main. rewrite Hs. f_equal. apply halted_absorbing; assumption.
Qed.

Lemma failed_check_halts_for_ever_witness :
  exists m, setup (with_version 0xff board_at_rest) power_on = Dead m /\
            run m [Key "q"; Tick rx_neutral ahrs_level] = m.
Proof.
  destruct (failed_check_halts_for_ever (with_version 0xff board_at_rest))
    as (m & tr & Hs & _ & _ & _ & _ & _ & Hrun).
  - left. reflexivity.
  - exists m. split; [exact Hs | apply Hrun].
Defined.

(** When all five checks pass, [setup] returns with interrupts enabled,
    having started the estimator and then the actuator driver. *)
Lemma passed_checks_start_actuators (b : board) :
  checks_pass b = true ->
  exists m tr,
    setup b power_on = Ret tt m /\ irq m = true /\ motor m = [0; 0; 0; 0] /\
    out m = tr ++ [SerialStr ("Calibrating sensors.." ++ CRLF); AhrsInit;
                   ActuatorsStart;
                   SerialStr ("AHRS loop and actuator signals are running" ++ CRLF);
                   SerialDec8 0; SerialDec8 0; SerialDec8 0; SerialDec8 0;
                   SerialEol] /\
    Forall quiet_event tr.
Proof.
  intros Hok.
  destruct (setup_init_run b power_on) as (m1 & t1 & E1 & W1 & I1 & Q1).
  destruct (stage_sanity_checks b m1) as (m2 & t2 & Q2 & H2).
  rewrite Hok in H2. destruct H2 as (E2 & W2 & I2).
  pose proof (went_on_trans _ _ _ _ _ W1 W2) as (P1 & P2 & P3 & P4 & P5 & P6).
  eexists. exists (t1 ++ t2).
  split; [unfold setup, bind; rewrite E1, E2; reflexivity|].
  unfold setup_start, bind, say, act, show_state, emit; cbn.
  rewrite P2. cbn.
  repeat split.
  - congruence.
  - rewrite P6, <- !app_assoc. reflexivity.
  - apply Forall_app; split; assumption.
Qed.

(** [setup] always comes to an end: the fuel of the gyro loop is enough. *)
Lemma setup_total (b : board) : setup b power_on <> Fuel.
Proof.
  destruct (checks_pass b) eqn:E.
  - destruct (passed_checks_start_actuators b E) as (m & tr & H & _).
    rewrite H. discriminate.
  - destruct (setup_init_run b power_on) as (m1 & t1 & E1 & _).
    destruct (stage_sanity_checks b m1) as (m2 & t2 & _ & H2).
    rewrite E in H2. destruct H2 as [E2 _].
    unfold setup, bind. rewrite E1, E2. discriminate.
Qed.

(** ** The gyro check *)

(** C2, as the code has it. The gyro check passes exactly when the three
    readings are strictly inside the band (0x2a0, 0x350) at all 21
    evaluations of the loop condition - the readings [setup] starts with
    and those of each of 20 rounds of conversions - and then it has polled
    20 rounds. The first reading found outside the band, on any axis, ends
    the polling there and is fatal at once: after [j] rounds when it is the
    reading of round [j], with none polled when it is the initial one. *)
Theorem gyro_check_stops_at_first_bad_reading (b : board) (m : machine) :
  let head := SerialStr "Checking if gyro readings in range.. " in
  (gyro_ok b = true ->
   check_gyro b m =
     Ret tt (emit (head :: gyro_polls 20 ++ [SerialStr "yep"; SerialEol]) m)) /\
  (forall j : nat,
     (j <= 20)%nat ->
     gyro_cond (gyro_readings b j) = false ->
     (forall i, (i < j)%nat -> gyro_cond (gyro_readings b i) = true) ->
     check_gyro b m = Dead (halt (emit (head :: gyro_polls j) m))) /\
  (gyro_ok b = false ->
   exists j, (j <= 20)%nat /\ gyro_cond (gyro_readings b j) = false /\
             forall i, (i < j)%nat -> gyro_cond (gyro_readings b i) = true).
Proof.
  intros head. subst head. split; [|split].
  - intros Hok. rewrite check_gyro_run. cbv zeta.
    rewrite gyro_exit_pass; [reflexivity|].
    intros j Hj. apply gyro_ok_all; [exact Hok | lia].
  - intros j Hj Hbad Hgood. rewrite check_gyro_run. cbv zeta.
    rewrite (gyro_exit_fail b 20 0 j); [| lia | exact Hbad | intros i Hi; apply Hgood; lia].
    cbn [fst snd]. replace (j <? 21)%nat with true by (symmetry; apply Nat.ltb_lt; lia).
    rewrite Nat.sub_0_r. reflexivity.
  - apply gyro_first_bad.
Qed.

Lemma gyro_check_stops_at_first_bad_reading_witness :
  check_gyro board_gyro_glitch power_on =
    Dead (halt (emit [SerialStr "Checking if gyro readings in range.. "] power_on)).
Proof.
  destruct (gyro_check_stops_at_first_bad_reading board_gyro_glitch power_on)
    as (_ & H & _).
  apply (H 0%nat).
  - lia.
  - reflexivity.
  - intros i Hi. lia.
Defined.

(** C2, as worded, fails. On [board_gyro_glitch] one axis is outside the
    band once, and one retry would find all three axes in the band, so the
    worded check passes with 19 retries to spare; [setup] halts without
    polling at all. *)
Lemma transient_gyro_reading_is_fatal :
  gyro_cond (adc_values board_gyro_glitch) = false /\
  forallb (fun k => gyro_cond (gyro_readings board_gyro_glitch k)) (seq 1 20) = true /\
  gyro_retry_spec 20 board_gyro_glitch 0 (adc_values board_gyro_glitch) = true /\
  check_gyro board_gyro_glitch power_on =
    Dead (halt (emit [SerialStr "Checking if gyro readings in range.. "] power_on)) /\
  exists m, setup board_gyro_glitch power_on = Dead m /\
            last_events 3 m =
              [SerialStr "Checking if gyro readings in range.. "; Cli;
               SerialStr "ERROR"].
Proof.
  split; [reflexivity|]. split; [vm_compute; reflexivity|].
  split; [vm_compute; reflexivity|]. split; [vm_compute; reflexivity|].
  eexists. split; vm_compute; reflexivity.
Qed.

(** ** The magnetic check *)

Lemma signed_unsigned (x : Z) : s16 (u16 x) = s16 x.
Proof.
  unfold s16, u16, signed, unsigned.
  change (2 ^ (16 - 1)) with 32768; change (2 ^ 16) with 65536.
  rewrite Zplus_mod_idemp_l. reflexivity.
Qed.

Lemma signed_square (x : Z) : s32 (s16 x * s16 x) = s16 x * s16 x /\
                              0 <= s16 x * s16 x <= 1073741824.
Proof.
  pose proof (signed_range x) as H. unfold is_s16 in H.
  assert (0 <= s16 x * s16 x <= 1073741824) by nia.
  split; [apply signed32_small; unfold is_s32; lia | assumption].
Qed.

Lemma mag_sum_squares (b : board) :
  mag_sum b = mag_axis b 0 * mag_axis b 0 + mag_axis b 1 * mag_axis b 1 +
              mag_axis b 2 * mag_axis b 2.
Proof.
  assert (H : forall i, s32 (mag_axis b i * mag_axis b i) = mag_axis b i * mag_axis b i /\
                        0 <= mag_axis b i * mag_axis b i <= 1073741824)
    by (intros i; unfold mag_axis; apply signed_square).
  destruct (H 0%nat) as [E0 B0], (H 1%nat) as [E1 B1], (H 2%nat) as [E2 B2].
  unfold mag_sum. cbv zeta. rewrite E0, E1, E2.
  set (p0 := mag_axis b 0 * mag_axis b 0) in *.
  set (p1 := mag_axis b 1 * mag_axis b 1) in *.
  set (p2 := mag_axis b 2 * mag_axis b 2) in *.
  rewrite (unsigned32_small p0) by lia.
  rewrite (unsigned32_small (p0 + p1)) by lia.
  apply unsigned32_small. lia.
Qed.

Lemma byte_pair (hi lo : Z) :
  is_u8 hi -> is_u8 lo -> u16 (Z.lor (u16 (Z.shiftl hi 8)) lo) = 256 * hi + lo.
Proof.
  unfold is_u8. intros Hhi Hlo.
  rewrite Z.shiftl_mul_pow2 by lia. change (2 ^ 8) with 256.
  rewrite (unsigned16_small (hi * 256)) by lia.
  assert (E : Z.land (hi * 256) lo = 0).
  { apply Z.bits_inj'. intros n Hn. rewrite Z.land_spec, Z.bits_0.
    destruct (Z_lt_le_dec n 8).
    - change 256 with (2 ^ 8). rewrite Z.mul_pow2_bits_low by lia. reflexivity.
    - replace lo with (lo mod 2 ^ 8) by (apply Z.mod_small; change (2 ^ 8) with 256; lia).
      rewrite Z.mod_pow2_bits_high by lia. apply andb_false_r. }
  pose proof (Z.add_lor_land (hi * 256) lo) as A. rewrite E in A.
  rewrite unsigned16_small; lia.
Qed.

Lemma be16_value (regs : list Z) (i : nat) :
  regs_valid regs -> (S i < 6)%nat ->
  be16 regs i = 256 * (regs !!! i) + regs !!! S i.
Proof.
  intros [Hlen Hall] Hi. unfold be16.
  apply byte_pair; apply Forall_lookup_total_1; try assumption; lia.
Qed.

(** C5, as the code has it. The magnetic check subtracts the calibration
    offset of each of the three axes from the axis's 16-bit reading, takes
    [isqrt32] of the sum of the three squares (which cannot overflow), and
    dies unless the result is in 300..600, both ends included. *)
Theorem magnetic_check_uses_three_axes (b : board) (m : machine) :
  let x := mag_axis b 0 in
  let y := mag_axis b 1 in
  let z := mag_axis b 2 in
  let len := u32 (isqrt32 b (x * x + y * y + z * z)) in
  let tr := [SerialStr "Checking magnetic field magnitude.. "; CmpsRead 10 6;
             SerialFp32 len 1000; SerialStr " T"; SerialEol] in
  (regs_valid (cmps09_mag_regs b) ->
   forall i : nat, (i < 3)%nat ->
     mag_axis b i =
       s16 (256 * (cmps09_mag_regs b !!! (2 * i)%nat)
            + cmps09_mag_regs b !!! S (2 * i) - cmps09_mag_calib b !!! i)) /\
  check_magnetic b m =
    if (300 <=? len) && (len <=? 600)
    then Ret len (emit tr m) else Dead (halt (emit tr m)).
Proof.
  cbv zeta. split.
  - intros Hregs i Hi. unfold mag_axis.
    rewrite signed_unsigned, be16_value by (try assumption; lia). reflexivity.
  - rewrite check_magnetic_run. cbv zeta.
    unfold magnetic_ok, mag_len. rewrite mag_sum_squares. reflexivity.
Qed.

Lemma magnetic_check_uses_three_axes_witness :
  mag_axis board_at_rest 2 = 200.
Proof.
  destruct (magnetic_check_uses_three_axes board_at_rest power_on) as [H _].
  rewrite H.
  - reflexivity.
  - split; [reflexivity|]. unfold is_u8. cbn. repeat constructor; lia.
  - lia.
Defined.

(** C5, as worded, fails. On [board_at_rest] the three offset axes are 200
    each: the norm of any two of them is 282, below the band, while the
    code computes 346 from all three and lets the board pass. *)
Lemma magnetic_norm_is_not_two_dimensional :
  (mag_axis board_at_rest 0, mag_axis board_at_rest 1, mag_axis board_at_rest 2)
    = (200, 200, 200) /\
  magnetic_ok_2d_spec board_at_rest 0 1 = false /\
  magnetic_ok_2d_spec board_at_rest 0 2 = false /\
  magnetic_ok_2d_spec board_at_rest 1 2 = false /\
  mag_len_2d_spec board_at_rest 0 1 = 282 /\
  mag_len board_at_rest = 346 /\
  exists m, check_magnetic board_at_rest power_on = Ret 346 m.
Proof.
  repeat (split; [vm_compute; reflexivity|]).
  eexists. vm_compute. reflexivity.
Qed.

(** ** The accelerometer check *)

Lemma acc_axis_half (regs : list Z) (i : nat) :
  -16384 <= acc_axis regs i <= 16383 /\
  (acc_sample regs i <> 32767 -> acc_axis regs i = (acc_sample regs i + 1) / 2).
Proof.
  unfold acc_axis, acc_sample.
  pose proof (signed_range (be16 regs (2 * i))) as Hs.
  pose proof (signed_range (s16 (be16 regs (2 * i)) + 1)) as Hy.
  set (s := s16 (be16 regs (2 * i))) in *.
  unfold is_s16 in Hs, Hy.
  rewrite Z.shiftr_div_pow2 by lia. change (2 ^ 1) with 2.
  assert (Hh : -16384 <= s16 (s + 1) / 2 <= 16383)
    by (Z.div_mod_to_equations; lia).
  rewrite (signed_small (s16 (s + 1) / 2)) by (unfold is_s16; lia).
  split; [exact Hh|].
  intros Hne. rewrite (signed_small (s + 1)) by (unfold is_s16; lia). reflexivity.
Qed.

Lemma unsigned32_add_l (x y : Z) : u32 (u32 x + y) = u32 (x + y).
Proof. unfold u32, unsigned. apply Zplus_mod_idemp_l. Qed.

Lemma acc_round_squares (regs : list Z) (len : Z) :
  acc_round regs len = u32 (len + acc_squares regs).
Proof.
  unfold acc_round, acc_squares. cbv zeta.
  destruct (acc_axis_half regs 0) as [B0 _], (acc_axis_half regs 1) as [B1 _],
           (acc_axis_half regs 2) as [B2 _].
  rewrite !Z.pow_2_r.
  rewrite !signed32_small by (unfold is_s32; nia).
  rewrite unsigned32_add_l, <- Z.add_assoc, unsigned32_add_l. f_equal. lia.
Qed.

Lemma acc_fold_total (f : nat -> Z) (l : list nat) :
  forall x : Z,
    fold_left (fun len k => u32 (len + f k)) l (u32 x) =
      u32 (x + fold_right Z.add 0 (map f l)).
Proof.
  induction l as [|k l IH]; intros x; cbn [fold_left map fold_right].
  - rewrite Z.add_0_r. reflexivity.
  - rewrite unsigned32_add_l, IH. f_equal. lia.
Qed.

Lemma unsigned32_idem (x : Z) : u32 (u32 x) = u32 x.
Proof. unfold u32, unsigned. apply Z.mod_mod. discriminate. Qed.

Lemma acc_sum_total (b : board) : acc_sum b = u32 (acc_total b).
Proof.
  unfold acc_sum, acc_total, mag_len.
  set (x := isqrt32 b (mag_sum b)).
  rewrite <- (acc_fold_total (fun k => acc_squares (cmps09_acc_regs b k))).
  rewrite unsigned32_idem.
  generalize (u32 x) as y. generalize (seq 0 16) as l.
  induction l as [|k l IH]; intros y; cbn [fold_left]; [reflexivity|].
  rewrite acc_round_squares. apply IH.
Qed.

(** C6, as the code has it. After a magnetic check that passed, the
    accelerometer check reads the accelerometer 16 times; each axis value
    is halved (one is added first, so halves round up) and its square is
    added to [len], which still holds the magnetic check's result and is
    not set to zero; [isqrt32] of that total is halved in the same way, and
    [setup] dies unless this half is in 0x3f00..0x4070, both ends
    included. *)
Theorem accel_check_continues_magnetic_sum (b : board) (m : machine) :
  let len := u32 (Z.shiftr (u32 (isqrt32 b (u32 (acc_total b)) + 1)) 1) in
  let tr := [SerialStr "Checking magnetic field magnitude.. "; CmpsRead 10 6;
             SerialFp32 (mag_len b) 1000; SerialStr " T"; SerialEol;
             SerialStr "Checking accelerometer readings.. "] ++
            acc_reads 16 ++
            [SerialFp32 len 0x4050; SerialStr " g"; SerialEol] in
  magnetic_ok b = true ->
  bind (check_magnetic b) (check_accel b) m =
    (if (0x3f00 <=? len) && (len <=? 0x4070)
     then Ret tt (emit tr m) else Dead (halt (emit tr m))) /\
  forall regs i,
    -16384 <= acc_axis regs i <= 16383 /\
    (acc_sample regs i <> 32767 -> acc_axis regs i = (acc_sample regs i + 1) / 2).
Proof.
  intros len tr Hmag. split; [|apply acc_axis_half].
  unfold bind. rewrite check_magnetic_run. cbv zeta. rewrite Hmag.
  rewrite check_accel_run. cbv zeta.
  unfold accel_ok, acc_len. rewrite acc_sum_total. fold len.
  rewrite !emit_emit.
  destruct ((16128 <=? len) && (len <=? 16496)); reflexivity.
Qed.

Lemma accel_check_continues_magnetic_sum_witness :
  exists m,
    bind (check_magnetic board_at_rest) (check_accel board_at_rest) power_on
      = Ret tt m.
Proof.
  destruct (accel_check_continues_magnetic_sum board_at_rest power_on eq_refl)
    as [H _].
  eexists. rewrite H. vm_compute. reflexivity.
Defined.

(** C6, as worded, fails. [board_at_rest] reads 0x4050 on the third
    accelerometer axis, 0 on the others, in all 16 reads, on top of a
    magnetic magnitude of 346. The code halves the values, gets 32928 as
    root and 0x4050 as its half, and passes. The squares of the samples
    themselves, added to the same variable, leave a root of 6484 (the sum
    has passed 32 bits; it would be 65856 otherwise), outside the band. *)
Lemma accel_check_is_not_plain_root :
  magnetic_ok board_at_rest = true /\ mag_len board_at_rest = 346 /\
  map (acc_sample (cmps09_acc_regs board_at_rest 0)) [0; 1; 2]%nat = [0; 0; 0x4050] /\
  isqrt32 board_at_rest (acc_sum board_at_rest) = 32928 /\
  acc_len board_at_rest = 0x4050 /\
  (exists m,
     bind (check_magnetic board_at_rest) (check_accel board_at_rest) power_on
       = Ret tt m) /\
  isqrt32 board_at_rest (acc_sum_spec board_at_rest) = 6484 /\
  Z.sqrt (346 + 16 * 0x4050 ^ 2) = 65856 /\
  accel_ok_spec board_at_rest = false.
Proof.
  repeat (split; [vm_compute; reflexivity|]).
  split; [eexists; vm_compute; reflexivity|].
  repeat (split; [vm_compute; reflexivity|]).
  vm_compute; reflexivity.
Qed.

(** ** The yaw setpoint with heading-hold *)

Lemma before_control_fields (rx : rx_t) (m : machine) :
  set_yaw (before_control rx m) = set_yaw m /\
  modes (before_control rx m) = modes (modes_update rx m).
Proof.
  unfold before_control, modes_update. cbn [prev_sw emit].
  destruct (rx_gyro_sw rx =? prev_sw m); split; reflexivity.
Qed.

Lemma loop_fields (rx : rx_t) (h : ahrs_t) (m : machine) :
  let m1 := before_control rx m in
  modes (loop rx h m) = modes m1 /\
  set_yaw (loop rx h m) = set_yaw' (control_locals (modes m1) (set_yaw m1) rx h).
Proof. split; reflexivity. Qed.

Lemma one_mode_update (rx : rx_t) (m : machine) :
  is_u8 (rx_right_pot rx) -> switch_bool rx ->
  one_mode (modes m) -> one_mode (modes (modes_update rx m)).
Proof.
  intros Hpot Hsw Hone.
  destruct (Z.eq_dec (rx_gyro_sw rx) (prev_sw m)) as [E|E].
  - rewrite modes_update_no_edge by exact E. exact Hone.
  - pose proof (mode_index_range _ Hpot) as Hnum.
    set (num := mode_index (rx_right_pot rx)) in *.
    destruct (Z.testbit (modes m) num || (rx_gyro_sw rx =? 1)) eqn:B.
    + right. exists num. split; [lia|].
      apply Z.bits_inj'. intros i Hi.
      destruct (modes_update_edge_bits rx m i Hpot Hsw E Hi) as [_ ->].
      fold num. rewrite B, andb_true_r, Z.pow2_bits_eqb by lia.
      apply Z.eqb_sym.
    + left. apply Z.bits_inj'. intros i Hi.
      destruct (modes_update_edge_bits rx m i Hpot Hsw E Hi) as [_ ->].
      fold num. rewrite B, andb_false_r, Z.bits_0. reflexivity.
Qed.

Lemma one_mode_exclusive (md : Z) :
  one_mode md -> mode_on md MODE_HEADINGHOLD_ENABLE = true ->
  mode_on md MODE_PANTILT_ENABLE = false.
Proof.
  intros [->|(k & Hk & ->)] Hhh; [discriminate Hhh|].
  assert (C : k = 0 \/ k = 1 \/ k = 2 \/ k = 3 \/ k = 4 \/ k = 5 \/ k = 6 \/ k = 7) by lia.
  destruct C as [->|[->|[->|[->|[->|[->|[->| ->]]]]]]];
    first [discriminate Hhh | reflexivity].
Qed.

(** One round with heading-hold on and pan-tilt off. *)
Lemma control_locals_heading_hold (md sy : Z) (rx : rx_t) (h : ahrs_t) :
  is_u8 (rx_co_right rx) ->
  mode_on md MODE_HEADINGHOLD_ENABLE = true ->
  mode_on md MODE_PANTILT_ENABLE = false ->
  let l := control_locals md sy rx h in
  set_yaw' l = s16 (sy + stick_delta rx) /\
  -0x800 <= dest_yaw l <= 0x800.
Proof.
  intros Hco Hhh Hpt l. subst l. unfold control_locals.
  rewrite Hhh, Hpt. cbn [set_yaw' dest_yaw]. split.
  - unfold stick_delta, is_u8 in *.
    rewrite !Z.shiftl_mul_pow2 by lia. change (2 ^ 2) with 4.
    rewrite (signed_small (rx_co_right rx * 4)) by (unfold is_s16; lia).
    rewrite (signed_small (rx_co_right rx * 4 - 128 * 4)) by (unfold is_s16; lia).
    f_equal. lia.
  - apply CLAMP_range. lia.
Qed.

(** The sum law from any state with at most one mode bit set and a 16-bit
    setpoint. *)
Lemma heading_hold_sum_from (ts : list (rx_t * ahrs_t)) :
  forall m : machine,
    one_mode (modes m) -> is_s16 (set_yaw m) ->
    Forall (fun t => rx_valid (fst t) /\ switch_bool (fst t)) ts ->
    hh_throughout m ts ->
    set_yaw (run_loop m ts) = s16 (set_yaw m + sum_deltas ts) /\
    length (yaw_errors m ts) = length ts /\
    Forall (fun e => -0x800 <= e <= 0x800) (yaw_errors m ts).
Proof.
  induction ts as [|[rx h] ts IH]; intros m Hone Hsy Hval Hhh.
  - cbn. rewrite Z.add_0_r, signed_small by exact Hsy.
    repeat split. constructor.
  - cbn [run_loop yaw_errors sum_deltas fold_right fst snd] in *.
    apply Forall_cons_1 in Hval.
    destruct Hval as [[(_ & Hpot & Hco & _) Hsw] Hval], Hhh as [Hon Hhh].
    cbn [fst] in Hpot, Hco, Hsw.
    destruct (before_control_fields rx m) as [Fsy Fmd].
    destruct (loop_fields rx h m) as [Lmd Lsy].
    assert (Hone1 : one_mode (modes (before_control rx m)))
      by (rewrite Fmd; apply one_mode_update; assumption).
    pose proof (one_mode_exclusive _ Hone1 Hon) as Hpt.
    destruct (control_locals_heading_hold (modes (before_control rx m))
                (set_yaw (before_control rx m)) rx h Hco Hon Hpt) as [Esy Edy].
    rewrite Esy, Fsy in Lsy.
    destruct (IH (loop rx h m)) as (A & B & C).
    + rewrite Lmd. exact Hone1.
    + rewrite Lsy. apply signed_range.
    + exact Hval.
    + exact Hhh.
    + split; [|split].
      * rewrite A, Lsy, signed_add_l. fold (sum_deltas ts). f_equal. lia.
      * cbn [length]. rewrite B. reflexivity.
      * constructor; [exact Edy | exact C].
Qed.

(** What every round of [loop] keeps: at most one mode bit, and a setpoint
    of 16 bits. *)
Lemma run_loop_invariant (ts : list (rx_t * ahrs_t)) :
  forall m : machine,
    one_mode (modes m) -> is_s16 (set_yaw m) ->
    Forall (fun t => rx_valid (fst t) /\ switch_bool (fst t)) ts ->
    one_mode (modes (run_loop m ts)) /\ is_s16 (set_yaw (run_loop m ts)).
Proof.
  induction ts as [|[rx h] ts IH]; intros m Hone Hsy Hval.
  - split; assumption.
  - cbn [run_loop fst snd]. apply Forall_cons_1 in Hval.
    destruct Hval as [[(_ & Hpot & _) Hsw] Hval]. cbn [fst] in Hpot, Hsw.
    destruct (before_control_fields rx m) as [_ Fmd].
    destruct (loop_fields rx h m) as [Lmd Lsy].
    apply IH; [| |exact Hval].
    + rewrite Lmd, Fmd. apply one_mode_update; assumption.
    + rewrite Lsy. unfold control_locals. cbn [set_yaw'].
      destruct (mode_on _ MODE_HEADINGHOLD_ENABLE); apply signed_range.
Qed.

Lemma run_loop_app (a b : list (rx_t * ahrs_t)) :
  forall m : machine, run_loop m (a ++ b) = run_loop (run_loop m a) b.
Proof.
  induction a as [|t a IH]; intros m; [reflexivity|].
  cbn [app run_loop]. apply IH.
Qed.

(** C8, as the code has it. Take any rounds of [loop] since power-on, with
    valid receiver channels and a 0/1 switch, and then N more rounds in
    each of which heading-hold is enabled: the yaw setpoint after the N
    rounds is its value before them plus the sum of the rounds'
    (yaw stick - 128) * 4, reduced to a signed 16-bit value (so equal to
    the plain sum whenever that fits 16 bits), and the yaw error mixed into
    the motors is in [-0x800, 0x800] in each of the N rounds. *)
Theorem heading_hold_setpoint_sum_wraps (pre ts : list (rx_t * ahrs_t)) :
  Forall (fun t => rx_valid (fst t) /\ switch_bool (fst t)) pre ->
  Forall (fun t => rx_valid (fst t) /\ switch_bool (fst t)) ts ->
  let m := run_loop power_on pre in
  hh_throughout m ts ->
  set_yaw (run_loop power_on (pre ++ ts)) = s16 (set_yaw m + sum_deltas ts) /\
  (is_s16 (set_yaw m + sum_deltas ts) ->
   set_yaw (run_loop power_on (pre ++ ts)) = set_yaw m + sum_deltas ts) /\
  length (yaw_errors m ts) = length ts /\
  Forall (fun e => -0x800 <= e <= 0x800) (yaw_errors m ts).
Proof.
  intros Hpre Hval m Hhh.
  destruct (run_loop_invariant pre power_on) as [Hone Hsy].
  { left. reflexivity. }
  { unfold is_s16. cbn. lia. }
  { exact Hpre. }
  fold m in Hone, Hsy.
  destruct (heading_hold_sum_from ts m Hone Hsy Hval Hhh) as (A & B & C).
  rewrite run_loop_app. fold m.
  repeat split; try assumption.
  intros Hfit. rewrite A. apply signed_small. exact Hfit.
Qed.

Lemma heading_hold_setpoint_sum_wraps_witness :
  set_yaw (run_loop power_on ([(rx_neutral, ahrs_level)] ++
                              repeat (rx_hold_yaw_right, ahrs_level) 3)) = 1524.
Proof.
  destruct (heading_hold_setpoint_sum_wraps
              [(rx_neutral, ahrs_level)]
              (repeat (rx_hold_yaw_right, ahrs_level) 3)) as (_ & H & _).
  - apply Forall_cons_2; [|apply Forall_nil_2].
    split; [unfold rx_valid, is_u8; cbn; lia | left; reflexivity].
  - cbn [repeat].
    repeat (apply Forall_cons_2;
            [split; [unfold rx_valid, is_u8; cbn; lia | right; reflexivity]|]).
    apply Forall_nil_2.
  - cbn. repeat split.
  - rewrite H; [reflexivity|]. vm_compute. split; discriminate.
Defined.

(** C8, as worded, fails. From power-on, the switch is put on with the
    selector at heading-hold and the yaw stick is held at 255 for 65
    rounds: the start value plus the sum of the deltas is 65 * 508 = 33020,
    which no 16-bit setpoint can be; the setpoint is -32516. *)
Lemma heading_hold_setpoint_overflows :
  let ts := repeat (rx_hold_yaw_right, ahrs_level) 65 in
  hh_throughout power_on ts /\
  set_yaw power_on + sum_deltas ts = 33020 /\
  set_yaw (run_loop power_on ts) = -32516 /\
  set_yaw (run_loop power_on ts) <> set_yaw power_on + sum_deltas ts.
Proof.
  cbv zeta. split; [|split; [|split]].
  - vm_compute. repeat split.
  - vm_compute. reflexivity.
  - vm_compute. reflexivity.
  - vm_compute. discriminate.
Qed.

(** * Further properties *)

(** ** More on the mode switch *)

(** The value of [modes] after a switch edge. *)
Lemma modes_update_edge_value (rx : rx_t) (m : machine) :
  is_u8 (rx_right_pot rx) -> switch_bool rx ->
  rx_gyro_sw rx <> prev_sw m ->
  let num := mode_index (rx_right_pot rx) in
  modes (modes_update rx m) =
    if Z.testbit (modes m) num || (rx_gyro_sw rx =? 1) then 2 ^ num else 0.
Proof.
  intros Hpot Hsw E num.
  pose proof (mode_index_range _ Hpot) as Hnum. fold num in Hnum.
  apply Z.bits_inj'. intros i Hi.
  destruct (modes_update_edge_bits rx m i Hpot Hsw E Hi) as [_ ->]. fold num.
  destruct (Z.testbit (modes m) num || (rx_gyro_sw rx =? 1)).
  - rewrite andb_true_r, Z.pow2_bits_eqb by lia. apply Z.eqb_sym.
  - rewrite andb_false_r, Z.bits_0. reflexivity.
Qed.

(** X1. [modes_update] records the switch it is given, so a second call
    with the same receiver state changes nothing: whatever the state and
    the channels, the update is idempotent. *)
Theorem modes_update_idempotent (rx : rx_t) (m : machine) :
  prev_sw (modes_update rx m) = rx_gyro_sw rx /\
  modes_update rx (modes_update rx m) = modes_update rx m.
Proof.
  assert (H : prev_sw (modes_update rx m) = rx_gyro_sw rx).
  { unfold modes_update. destruct (Z.eqb_spec (rx_gyro_sw rx) (prev_sw m)) as [E|E].
    - symmetry. exact E.
    - reflexivity. }
  split; [exact H|].
  apply modes_update_no_edge. symmetry. exact H.
Qed.

(** X2. On a switch edge, with an 8-bit selector and a 0/1 switch,
    [modes] is left with at most the bit at the selector's index: it is
    2^index when the switch is now on or that bit was set before, and 0
    otherwise; every other bit is cleared whatever it was. *)
Theorem modes_update_edge_result (rx : rx_t) (m : machine) :
  is_u8 (rx_right_pot rx) -> switch_bool rx ->
  rx_gyro_sw rx <> prev_sw m ->
  let num := mode_index (rx_right_pot rx) in
  0 <= num <= 5 /\
  modes (modes_update rx m) =
    (if Z.testbit (modes m) num || (rx_gyro_sw rx =? 1) then 2 ^ num else 0) /\
  forall i, 0 <= i -> i <> num -> Z.testbit (modes (modes_update rx m)) i = false.
Proof.
  intros Hpot Hsw E num. split; [apply mode_index_range; exact Hpot|].
  split; [apply modes_update_edge_value; assumption|].
  intros i Hi Hne.
  destruct (modes_update_edge_bits rx m i Hpot Hsw E Hi) as [_ ->]. fold num.
  replace (i =? num) with false by lia. reflexivity.
Qed.

Lemma modes_update_edge_result_witness :
  modes (modes_update (mk_rx 1 70 128 128 128 0) (with_modes 3 power_on)) = 4.
Proof.
  destruct (modes_update_edge_result (mk_rx 1 70 128 128 128 0) (with_modes 3 power_on))
    as (_ & H & _).
  - unfold is_u8. cbn. lia.
  - right. reflexivity.
  - cbn. lia.
  - rewrite H. reflexivity.
Defined.

Lemma mode_index_bucket (pot : Z) : is_u8 pot -> mode_index pot = mode_bucket pot.
Proof.
  intros H. rewrite mode_index_formula by exact H.
  unfold is_u8 in H. unfold mode_bucket.
  repeat match goal with
         | |- context [?a <? ?b] => destruct (Z.ltb_spec a b)
         end; Z.div_mod_to_equations; lia.
Qed.

(** X3. The selector's 8-bit range falls into six buckets: 0..12 select
    bit 0 (armed), 13..61 bit 1 (heading-hold), 62..110 bit 2 (pan-tilt),
    and 111..255 the bits 3, 4 and 5, which name no mode. A switch edge
    with the selector at 111 or above therefore leaves all three named
    modes off, whichever way the switch went. *)
Theorem selector_buckets (rx : rx_t) (m : machine) :
  is_u8 (rx_right_pot rx) -> switch_bool rx ->
  mode_index (rx_right_pot rx) = mode_bucket (rx_right_pot rx) /\
  (rx_gyro_sw rx <> prev_sw m -> 111 <= rx_right_pot rx ->
   mode_on (modes (modes_update rx m)) MODE_MOTORS_ARMED = false /\
   mode_on (modes (modes_update rx m)) MODE_HEADINGHOLD_ENABLE = false /\
   mode_on (modes (modes_update rx m)) MODE_PANTILT_ENABLE = false).
Proof.
  intros Hpot Hsw. split; [apply mode_index_bucket; exact Hpot|].
  intros E Hhigh.
  rewrite (modes_update_edge_value rx m Hpot Hsw E). cbv zeta.
  rewrite (mode_index_bucket _ Hpot).
  unfold is_u8 in Hpot. unfold mode_bucket.
  replace (rx_right_pot rx <? 13) with false by lia.
  replace (rx_right_pot rx <? 62) with false by lia.
  replace (rx_right_pot rx <? 111) with false by lia.
  destruct (rx_right_pot rx <? 160), (rx_right_pot rx <? 209);
    match goal with
    | |- context [if ?c then _ else _] => destruct c
    end; repeat split; reflexivity.
Qed.

Lemma selector_buckets_witness :
  mode_on (modes (modes_update (mk_rx 1 200 128 128 128 0) (with_modes 7 power_on)))
          MODE_HEADINGHOLD_ENABLE = false.
Proof.
  destruct (selector_buckets (mk_rx 1 200 128 128 128 0) (with_modes 7 power_on))
    as [_ H].
  - unfold is_u8. cbn. lia.
  - right. reflexivity.
  - destruct H as (_ & H & _); [cbn; lia | cbn; lia | exact H].
Defined.

(** X4. From power-on, over any rounds of [loop] with valid channels and a
    0/1 switch, at most one mode bit is ever set, so heading-hold and
    pan-tilt are never enabled together, and the yaw setpoint stays a
    16-bit value. *)
Theorem modes_exclusive_from_power_on (ts : list (rx_t * ahrs_t)) :
  Forall (fun t => rx_valid (fst t) /\ switch_bool (fst t)) ts ->
  let m := run_loop power_on ts in
  one_mode (modes m) /\ is_s16 (set_yaw m) /\
  ~ (mode_on (modes m) MODE_HEADINGHOLD_ENABLE = true /\
     mode_on (modes m) MODE_PANTILT_ENABLE = true).
Proof.
  intros Hval m.
  destruct (run_loop_invariant ts power_on) as [Hone Hsy].
  - left. reflexivity.
  - unfold is_s16. cbn. lia.
  - exact Hval.
  - fold m in Hone, Hsy. split; [exact Hone|]. split; [exact Hsy|].
    intros [Hh Hp]. rewrite (one_mode_exclusive _ Hone Hh) in Hp. discriminate.
Qed.

Lemma modes_exclusive_from_power_on_witness :
  one_mode (modes (run_loop power_on [(rx_hold_yaw_right, ahrs_level)])).
Proof.
  destruct (modes_exclusive_from_power_on [(rx_hold_yaw_right, ahrs_level)])
    as [H _].
  - apply Forall_cons_2; [|apply Forall_nil_2].
    split; [unfold rx_valid, is_u8; cbn; lia | right; reflexivity].
  - exact H.
Defined.

(** ** More on the mixer *)

Lemma ease_range (x : Z) : is_s16 x -> -32000 <= ease x <= 31999.
Proof.
  unfold is_s16. intros H.
  destruct (Z_lt_le_dec x 0x400) as [A|A].
  - destruct (Z_lt_le_dec (-0x400) x) as [B|B].
    + rewrite ease_inner by lia. Z.div_mod_to_equations. lia.
    + rewrite ease_lower by lia. lia.
  - rewrite ease_upper by lia. lia.
Qed.

(** X5. The easing law shrinks an error without changing its side: a
    16-bit error of 0..3 gives 0 and no other error does, an error of 4 or
    more gives a value from 1 up to the error, a negative error gives a
    value from the error up to -1, and the result always stays within
    -32000..31999, so the law itself never wraps. *)
Theorem ease_shrinks (x : Z) :
  is_s16 x ->
  (ease x = 0 <-> 0 <= x <= 3) /\
  (4 <= x -> 1 <= ease x <= x) /\
  (x < 0 -> x <= ease x <= -1) /\
  -32000 <= ease x <= 31999.
Proof.
  intros H. pose proof (ease_range x H) as R. unfold is_s16 in H.
  destruct (Z_lt_le_dec x 0x400) as [A|A].
  - destruct (Z_lt_le_dec (-0x400) x) as [B|B].
    + rewrite ease_inner in * by lia.
      split; [split; intros ?; Z.div_mod_to_equations; lia|].
      split; [intros ?; Z.div_mod_to_equations; lia|].
      split; [intros ?; Z.div_mod_to_equations; lia | exact R].
    + rewrite ease_lower in * by lia.
      split; [split; intros ?; lia|].
      split; [intros ?; lia|]. split; [intros ?; lia | exact R].
  - rewrite ease_upper in * by lia.
    split; [split; intros ?; lia|].
    split; [intros ?; lia|]. split; [intros ?; lia | exact R].
Qed.

Lemma ease_shrinks_witness : ease (-1) = -1 /\ ease 3 = 0.
Proof.
  destruct (ease_shrinks (-1)) as (_ & _ & Hn & _); [unfold is_s16; lia|].
  destruct (ease_shrinks 3) as (Hz & _); [unfold is_s16; lia|].
  split; [specialize (Hn ltac:(lia)); lia | apply Hz; lia].
Defined.

Lemma control_locals_ranges (md sy : Z) (rx : rx_t) (h : ahrs_t) :
  let l := control_locals md sy rx h in
  is_s16 (base_throttle l) /\
  -32000 <= dest_pitch l <= 31999 /\
  -32000 <= dest_roll l <= 31999 /\
  is_s16 (dest_yaw l).
Proof.
  cbv zeta. unfold control_locals. cbn [base_throttle dest_pitch dest_roll dest_yaw].
  split; [apply signed_range|].
  split; [apply ease_range, signed_range|].
  split; [apply ease_range, signed_range|].
  destruct (mode_on md MODE_HEADINGHOLD_ENABLE).
  - pose proof (CLAMP_range (s16 (s16 (ahrs_yaw h + s16 (Z.shiftl (ahrs_yaw_rate h) 1)) -
        s16 (sy + s16 (s16 (Z.shiftl (if mode_on md MODE_PANTILT_ENABLE then 128
                                       else rx_co_right rx) 2) - Z.shiftl 128 2))))
        (-0x800) 0x800 ltac:(lia)) as C.
    unfold is_s16. lia.
  - apply signed_range.
Qed.

Lemma control_locals_sums (md sy : Z) (rx : rx_t) (h : ahrs_t) :
  let l := control_locals md sy rx h in
  mot_a l = CLAMP (s32 (base_throttle l + dest_pitch l + dest_roll l + dest_yaw l)) 0 32000 /\
  mot_b l = CLAMP (s32 (base_throttle l - dest_pitch l + dest_roll l - dest_yaw l)) 0 32000 /\
  mot_c l = CLAMP (s32 (base_throttle l + dest_pitch l - dest_roll l - dest_yaw l)) 0 32000 /\
  mot_d l = CLAMP (s32 (base_throttle l - dest_pitch l - dest_roll l + dest_yaw l)) 0 32000.
Proof.
  cbv zeta. unfold control_locals.
  cbn [mot_a mot_b mot_c mot_d base_throttle dest_pitch dest_roll dest_yaw].
  repeat split.
Qed.

(** X6. The 32-bit sums of the mixer never wrap: each motor command is
    the base throttle plus or minus the pitch, roll and yaw terms, clamped
    to [0, 32000]. While none of the four is clamped, the four commands
    add up to four times the base throttle, and their signed combinations
    give back four times the pitch, the roll and the yaw term. *)
Theorem mixer_sums_balance (md sy : Z) (rx : rx_t) (h : ahrs_t) :
  let l := control_locals md sy rx h in
  let B := base_throttle l in
  let P := dest_pitch l in
  let R := dest_roll l in
  let Y := dest_yaw l in
  (mot_a l = CLAMP (B + P + R + Y) 0 32000 /\
   mot_b l = CLAMP (B - P + R - Y) 0 32000 /\
   mot_c l = CLAMP (B + P - R - Y) 0 32000 /\
   mot_d l = CLAMP (B - P - R + Y) 0 32000) /\
  (0 <= B + P + R + Y <= 32000 -> 0 <= B - P + R - Y <= 32000 ->
   0 <= B + P - R - Y <= 32000 -> 0 <= B - P - R + Y <= 32000 ->
   mot_a l + mot_b l + mot_c l + mot_d l = 4 * B /\
   mot_a l - mot_b l + mot_c l - mot_d l = 4 * P /\
   mot_a l + mot_b l - mot_c l - mot_d l = 4 * R /\
   mot_a l - mot_b l - mot_c l + mot_d l = 4 * Y).
Proof.
  intros l B P R Y.
  destruct (control_locals_ranges md sy rx h) as (HB & HP & HR & HY).
  destruct (control_locals_sums md sy rx h) as (Ea & Eb & Ec & Ed).
  fold l in HB, HP, HR, HY, Ea, Eb, Ec, Ed.
  fold B in HB, Ea, Eb, Ec, Ed. fold P in HP, Ea, Eb, Ec, Ed.
  fold R in HR, Ea, Eb, Ec, Ed. fold Y in HY, Ea, Eb, Ec, Ed.
  unfold is_s16 in HB, HY.
  rewrite signed32_small in Ea, Eb, Ec, Ed by (unfold is_s32; lia).
  split; [repeat split; assumption|].
  intros Ia Ib Ic Id.
  rewrite Ea, Eb, Ec, Ed.
  rewrite !CLAMP_inside by assumption.
  repeat split; lia.
Qed.

Lemma mixer_sums_balance_witness :
  let l := control_locals 0 0 (mk_rx 0 0 100 128 128 100) ahrs_level in
  mot_a l + mot_b l + mot_c l + mot_d l = 4 * 12800.
Proof.
  destruct (mixer_sums_balance 0 0 (mk_rx 0 0 100 128 128 100) ahrs_level)
    as [_ H].
  destruct H as (H & _);
    [vm_compute; split; discriminate | vm_compute; split; discriminate
    |vm_compute; split; discriminate | vm_compute; split; discriminate
    |exact H].
Defined.

Lemma base_throttle_value (md sy : Z) (rx : rx_t) (h : ahrs_t) :
  is_u8 (rx_co_throttle rx) ->
  base_throttle (control_locals md sy rx h) = 128 * rx_co_throttle rx.
Proof.
  unfold is_u8. intros H. unfold control_locals. cbn [base_throttle].
  rewrite Z.shiftl_mul_pow2 by lia. change (2 ^ 7) with 128.
  rewrite signed_small by (unfold is_s16; lia). lia.
Qed.

Lemma stick_term (cur stick : Z) :
  cur = 0 -> is_u8 stick ->
  ease (s16 (Z.quot (s16 (- s16 (cur + s16 (s16 (Z.shiftl stick 5) - Z.shiftl 128 5)))) 1))
    = ease (32 * (128 - stick)).
Proof.
  unfold is_u8. intros -> Hs.
  rewrite !Z.shiftl_mul_pow2 by lia. change (2 ^ 5) with 32.
  rewrite (signed_small (stick * 32)) by (unfold is_s16; lia).
  rewrite (signed_small (stick * 32 - 128 * 32)) by (unfold is_s16; lia).
  rewrite Z.add_0_l.
  rewrite (signed_small (stick * 32 - 128 * 32)) by (unfold is_s16; lia).
  rewrite (signed_small (- (stick * 32 - 128 * 32))) by (unfold is_s16; lia).
  rewrite Z.quot_1_r.
  rewrite signed_small by (unfold is_s16; lia). f_equal. lia.
Qed.

Lemma dest_pitch_level (md sy : Z) (rx : rx_t) (h : ahrs_t) :
  ahrs_pitch h = 0 -> ahrs_pitch_rate h = 0 -> is_u8 (rx_cy_front rx) ->
  dest_pitch (control_locals md sy rx h) =
    ease (32 * (128 - (if mode_on md MODE_PANTILT_ENABLE then 128 else rx_cy_front rx))).
Proof.
  intros H1 H2 H3. unfold control_locals. cbn [dest_pitch].
  rewrite H1, H2. apply stick_term; [reflexivity|].
  destruct (mode_on md MODE_PANTILT_ENABLE); [unfold is_u8; lia | exact H3].
Qed.

Lemma dest_roll_level (md sy : Z) (rx : rx_t) (h : ahrs_t) :
  ahrs_roll h = 0 -> ahrs_roll_rate h = 0 -> is_u8 (rx_cy_right rx) ->
  dest_roll (control_locals md sy rx h) =
    ease (32 * (128 - (if mode_on md MODE_PANTILT_ENABLE then 128 else rx_cy_right rx))).
Proof.
  intros H1 H2 H3. unfold control_locals. cbn [dest_roll].
  rewrite H1, H2. apply stick_term; [reflexivity|].
  destruct (mode_on md MODE_PANTILT_ENABLE); [unfold is_u8; lia | exact H3].
Qed.

Lemma dest_yaw_off (md sy : Z) (rx : rx_t) (h : ahrs_t) :
  is_u8 (rx_co_right rx) ->
  mode_on md MODE_HEADINGHOLD_ENABLE = false ->
  dest_yaw (control_locals md sy rx h) =
    32 * (128 - (if mode_on md MODE_PANTILT_ENABLE then 128 else rx_co_right rx)).
Proof.
  unfold is_u8. intros Hco Hoff. unfold control_locals. rewrite Hoff. cbn [dest_yaw].
  set (s := if mode_on md MODE_PANTILT_ENABLE then 128 else rx_co_right rx).
  assert (Hs : 0 <= s <= 255) by (subst s; destruct (mode_on md MODE_PANTILT_ENABLE); lia).
  rewrite !Z.shiftl_mul_pow2 by lia. change (2 ^ 5) with 32.
  rewrite (signed_small (s * 32)) by (unfold is_s16; lia).
  rewrite signed_small by (unfold is_s16; lia). lia.
Qed.

(** X7. Level and at rest in pitch and roll, with heading-hold off, the
    commands follow from the sticks alone. With P and R the easing of
    32 * (128 - pitch stick) and 32 * (128 - roll stick), Y = 32 * (128 -
    yaw stick) and T = 128 * throttle, the four motors get T + P + R + Y,
    T - P + R - Y, T + P - R - Y and T - P - R + Y, each clamped to
    [0, 32000]. With the three sticks centred (as they are taken to be
    under pan-tilt) all four get T, which saturates at 32000 from
    throttle 250. *)
Theorem level_flight_commands (md sy : Z) (rx : rx_t) (h : ahrs_t) :
  rx_valid rx ->
  ahrs_pitch h = 0 -> ahrs_pitch_rate h = 0 ->
  ahrs_roll h = 0 -> ahrs_roll_rate h = 0 ->
  mode_on md MODE_HEADINGHOLD_ENABLE = false ->
  let pt := mode_on md MODE_PANTILT_ENABLE in
  let P := ease (32 * (128 - (if pt then 128 else rx_cy_front rx))) in
  let R := ease (32 * (128 - (if pt then 128 else rx_cy_right rx))) in
  let Y := 32 * (128 - (if pt then 128 else rx_co_right rx)) in
  let T := 128 * rx_co_throttle rx in
  let l := control_locals md sy rx h in
  (mot_a l = CLAMP (T + P + R + Y) 0 32000 /\
   mot_b l = CLAMP (T - P + R - Y) 0 32000 /\
   mot_c l = CLAMP (T + P - R - Y) 0 32000 /\
   mot_d l = CLAMP (T - P - R + Y) 0 32000) /\
  (P = 0 -> R = 0 -> Y = 0 ->
   motor_commands l = [Z.min T 32000; Z.min T 32000; Z.min T 32000; Z.min T 32000]).
Proof.
  intros (_ & _ & Hco & Hcr & Hcf & Ht) Hp Hpr Hro Hrr Hoff pt P R Y T l.
  destruct (control_locals_sums md sy rx h) as (Ea & Eb & Ec & Ed).
  destruct (control_locals_ranges md sy rx h) as (_ & RP & RR & _).
  fold l in Ea, Eb, Ec, Ed, RP, RR.
  pose proof (base_throttle_value md sy rx h Ht) as EB.
  pose proof (dest_pitch_level md sy rx h Hp Hpr Hcf) as EP.
  pose proof (dest_roll_level md sy rx h Hro Hrr Hcr) as ER.
  pose proof (dest_yaw_off md sy rx h Hco Hoff) as EY.
  fold l pt in EB, EP, ER, EY. fold P in EP. fold R in ER. fold Y in EY. fold T in EB.
  rewrite EP in RP. rewrite ER in RR.
  rewrite EB, EP, ER, EY in Ea, Eb, Ec, Ed.
  assert (HY : -4096 <= Y <= 4096)
    by (subst Y; unfold is_u8 in Hco; destruct pt; lia).
  unfold is_u8 in Ht. fold T in Ht.
  rewrite signed32_small in Ea, Eb, Ec, Ed by (unfold is_s32; lia).
  split; [repeat split; assumption|].
  intros P0 R0 Y0.
  unfold motor_commands. rewrite Ea, Eb, Ec, Ed, P0, R0, Y0.
  replace (T + 0 + 0 + 0) with T by lia. replace (T - 0 + 0 - 0) with T by lia.
  replace (T + 0 - 0 - 0) with T by lia. replace (T - 0 - 0 + 0) with T by lia.
  assert (C : CLAMP T 0 32000 = Z.min T 32000).
  { unfold CLAMP. destruct (T <? 0) eqn:E1; [lia|].
    destruct (T >? 32000) eqn:E2; lia. }
  rewrite C. rewrite unsigned16_small by lia. reflexivity.
Qed.

Lemma level_flight_commands_witness :
  motor_commands (control_locals 0 0 (mk_rx 0 0 128 128 128 255) ahrs_level)
    = [32000; 32000; 32000; 32000].
Proof.
  assert (V : rx_valid (mk_rx 0 0 128 128 128 255))
    by (unfold rx_valid, is_u8; cbn; lia).
  destruct (level_flight_commands 0 0 (mk_rx 0 0 128 128 128 255) ahrs_level V
              eq_refl eq_refl eq_refl eq_refl eq_refl) as [_ H].
  rewrite H; reflexivity.
Defined.

(** X8. Under pan-tilt mode the three attitude sticks are not looked at:
    two receiver states with the same throttle give the same locals, and
    so the same motor commands and the same yaw setpoint. *)
Theorem pantilt_ignores_sticks (md sy : Z) (rx rx' : rx_t) (h : ahrs_t) :
  mode_on md MODE_PANTILT_ENABLE = true ->
  rx_co_throttle rx = rx_co_throttle rx' ->
  control_locals md sy rx h = control_locals md sy rx' h.
Proof.
  intros Hpt Ht. unfold control_locals. rewrite Hpt, Ht. reflexivity.
Qed.

Lemma pantilt_ignores_sticks_witness :
  control_locals 4 0 (mk_rx 0 0 0 255 17 90) ahrs_level =
  control_locals 4 0 (mk_rx 0 0 128 128 128 90) ahrs_level.
Proof.
  apply pantilt_ignores_sticks; reflexivity.
Defined.

Lemma mode_on_toggle_armed (md bit : Z) :
  1 <= bit -> mode_on (Z.lxor md 1) bit = mode_on md bit.
Proof.
  intros Hb. unfold mode_on. do 2 f_equal.
  apply Z.bits_inj'. intros i Hi.
  rewrite !Z.land_spec, Z.lxor_spec.
  rewrite Z.shiftl_mul_pow2, Z.mul_1_l, Z.pow2_bits_eqb by lia.
  destruct (Z.eqb_spec bit i) as [->|]; [|rewrite !andb_false_r; reflexivity].
  change 1 with (2 ^ 0) at 1. rewrite Z.pow2_bits_eqb by lia.
  replace (0 =? i) with false by lia. rewrite xorb_false_r. reflexivity.
Qed.

(** X9. The armed bit is never consulted: toggling bit 0 of [modes]
    changes nothing in what [control_update] computes, so motor commands
    are issued whether or not the motors are "armed". *)
Theorem armed_bit_ignored (md sy : Z) (rx : rx_t) (h : ahrs_t) :
  control_locals (Z.lxor md 1) sy rx h = control_locals md sy rx h.
Proof.
  unfold control_locals.
  rewrite (mode_on_toggle_armed md MODE_PANTILT_ENABLE) by (unfold MODE_PANTILT_ENABLE; lia).
  rewrite (mode_on_toggle_armed md MODE_HEADINGHOLD_ENABLE)
    by (unfold MODE_HEADINGHOLD_ENABLE; lia).
  reflexivity.
Qed.

Lemma sum_deltas_neutral (ts : list (rx_t * ahrs_t)) :
  Forall (fun t => rx_co_right (fst t) = 128) ts -> sum_deltas ts = 0.
Proof.
  induction 1 as [|t ts Ht _ IH]; [reflexivity|].
  unfold sum_deltas in *. cbn [fold_right]. rewrite IH.
  unfold stick_delta. rewrite Ht. reflexivity.
Qed.

(** X10. Heading-hold holds: after any rounds since power-on, over N more
    rounds with heading-hold enabled and the yaw stick centred at 128, the
    yaw setpoint does not move at all. *)
Theorem heading_hold_centred_stick_keeps_setpoint (pre ts : list (rx_t * ahrs_t)) :
  Forall (fun t => rx_valid (fst t) /\ switch_bool (fst t)) pre ->
  Forall (fun t => rx_valid (fst t) /\ switch_bool (fst t)) ts ->
  Forall (fun t => rx_co_right (fst t) = 128) ts ->
  hh_throughout (run_loop power_on pre) ts ->
  set_yaw (run_loop power_on (pre ++ ts)) = set_yaw (run_loop power_on pre).
Proof.
  intros Hpre Hval Hmid Hhh.
  destruct (run_loop_invariant pre power_on) as [Hone Hsy];
    [left; reflexivity | unfold is_s16; cbn; lia | exact Hpre |].
  destruct (heading_hold_sum_from ts _ Hone Hsy Hval Hhh) as (A & _).
  rewrite run_loop_app, A, sum_deltas_neutral, Z.add_0_r by exact Hmid.
  apply signed_small. exact Hsy.
Qed.

Lemma heading_hold_centred_stick_keeps_setpoint_witness :
  set_yaw (run_loop power_on ([(rx_hold_yaw_right, ahrs_level)] ++
                              repeat (mk_rx 1 49 128 128 128 0, ahrs_level) 4)) = 508.
Proof.
  rewrite (heading_hold_centred_stick_keeps_setpoint
             [(rx_hold_yaw_right, ahrs_level)]
             (repeat (mk_rx 1 49 128 128 128 0, ahrs_level) 4)).
  - reflexivity.
  - apply Forall_cons_2; [|apply Forall_nil_2].
    split; [unfold rx_valid, is_u8; cbn; lia | right; reflexivity].
  - cbn [repeat].
    repeat (apply Forall_cons_2;
            [split; [unfold rx_valid, is_u8; cbn; lia | right; reflexivity]|]).
    apply Forall_nil_2.
  - cbn [repeat]. repeat (apply Forall_cons_2; [reflexivity|]). apply Forall_nil_2.
  - cbn. repeat split.
Defined.

(** X20. With heading-hold on, the yaw error is taken the short way round
    the circle: whenever the yaw estimate is the new setpoint plus [e] as a
    16-bit angle, for an [e] within [-0x800, 0x800], the yaw term mixed
    into the motors is [e] itself, also when estimate and setpoint lie on
    either side of the wrap between 32767 and -32768. *)
Theorem yaw_error_wraps_short_way (md sy : Z) (rx : rx_t) (h : ahrs_t) (e : Z) :
  mode_on md MODE_HEADINGHOLD_ENABLE = true ->
  -0x800 <= e <= 0x800 ->
  let l := control_locals md sy rx h in
  cur_yaw l = s16 (set_yaw' l + e) ->
  dest_yaw l = e.
Proof.
  intros Hon He l. subst l. unfold control_locals. rewrite Hon.
  cbn [cur_yaw set_yaw' dest_yaw].
  set (s := s16 (sy + _)). intros ->.
  replace (s16 (s + e) - s) with (s16 (s + e) + - s) by lia.
  rewrite signed_add_l. replace (s + e + - s) with e by lia.
  rewrite signed_small by (unfold is_s16; lia).
  apply CLAMP_inside. exact He.
Qed.

Lemma yaw_error_wraps_short_way_witness :
  dest_yaw (control_locals 2 32767 (mk_rx 1 49 128 128 128 0)
                           (mk_ahrs 0 0 0 0 (-32768) 0)) = 1.
Proof.
  apply (yaw_error_wraps_short_way 2 32767 (mk_rx 1 49 128 128 128 0)
           (mk_ahrs 0 0 0 0 (-32768) 0) 1).
  - reflexivity.
  - lia.
  - vm_compute. reflexivity.
Defined.

(** ** More on the console handler *)

Lemma handle_input_motor (ch : ascii) (n : nat) (d : bool) (m : machine) :
  motors_ok m -> key_target ch = Some (n, d) ->
  (n < 4)%nat /\
  motor (handle_input ch m) = <[n := key_step d (motor m !!! n)]> (motor m) /\
  motors_ok (handle_input ch m).
Proof.
  intros Hok E.
  pose proof (key_target_index ch n d E) as Hn.
  pose proof (handle_input_spec ch m Hok) as H. rewrite E in H. cbv zeta in H.
  destruct H as [Hm _]. split; [exact Hn|]. split; [exact Hm|].
  destruct Hok as [Hlen Hall]. unfold motors_ok. rewrite Hm. split.
  - rewrite length_insert. exact Hlen.
  - apply Forall_insert; [exact Hall|].
    apply key_step_range. apply Forall_lookup_total_1; [exact Hall | lia].
Qed.

(** X11. A raise key and the lower key of the same motor undo each other
    away from the stops: up then down restores the whole [motor] array
    when the value was below 255, down then up when it was above 0. At the
    stops they do not: from 255, up then down leaves 254, and from 0, down
    then up leaves 1. *)
Theorem key_pair_round_trip (up dn : ascii) (n : nat) (m : machine) :
  key_target up = Some (n, false) -> key_target dn = Some (n, true) ->
  motors_ok m ->
  let x := motor m !!! n in
  (x < 255 -> motor (handle_input dn (handle_input up m)) = motor m) /\
  (0 < x -> motor (handle_input up (handle_input dn m)) = motor m) /\
  (x = 255 -> motor (handle_input dn (handle_input up m)) !!! n = 254) /\
  (x = 0 -> motor (handle_input up (handle_input dn m)) !!! n = 1).
Proof.
  intros Eup Edn Hok x.
  destruct (handle_input_motor up n false m Hok Eup) as (Hn & Mu & Oku).
  destruct (handle_input_motor dn n true m Hok Edn) as (_ & Md & Okd).
  destruct (handle_input_motor dn n true _ Oku Edn) as (_ & Mud & _).
  destruct (handle_input_motor up n false _ Okd Eup) as (_ & Mdu & _).
  pose proof (motors_ok_lookup m n Hok Hn) as Hx. fold x in Hx. unfold is_u8 in Hx.
  destruct Hok as [Hlen _].
  rewrite Mud, Mu, Mdu, Md.
  rewrite !list_lookup_total_insert_eq by (rewrite ?length_insert; lia).
  rewrite !list_insert_insert_eq. fold x. unfold key_step.
  repeat split; intros Hc.
  - replace (Z.max 0 (Z.min 255 (x + 1) - 1)) with x by lia.
    apply list_insert_id, list_lookup_lookup_total_lt. lia.
  - replace (Z.min 255 (Z.max 0 (x - 1) + 1)) with x by lia.
    apply list_insert_id, list_lookup_lookup_total_lt. lia.
  - lia.
  - lia.
Qed.

Lemma key_pair_round_trip_witness :
  motor (handle_input "s" (handle_input "w" (with_motor [3; 9; 0; 255] power_on)))
    = [3; 9; 0; 255].
Proof.
  destruct (key_pair_round_trip "w" "s" 1 (with_motor [3; 9; 0; 255] power_on))
    as (H & _).
  - reflexivity.
  - reflexivity.
  - split; [reflexivity|]. unfold is_u8. cbn. repeat constructor; lia.
  - apply H. cbn. lia.
Defined.

(** X12. Holding a key: [n] presses of a raise key leave the motor's test
    value at min(255, x + n), [n] presses of a lower key at max(0, x - n);
    the other three values are untouched. *)
Theorem presses_saturate (ch : ascii) (k : nat) (d : bool) (n : nat) (m : machine) :
  key_target ch = Some (k, d) -> motors_ok m ->
  let x := motor m !!! k in
  motor (presses ch n m) =
    <[k := if d then Z.max 0 (x - Z.of_nat n) else Z.min 255 (x + Z.of_nat n)]>
      (motor m) /\
  motors_ok (presses ch n m).
Proof.
  intros E Hok x.
  pose proof (key_target_index ch k d E) as Hk.
  pose proof (motors_ok_lookup m k Hok Hk) as Hx. fold x in Hx. unfold is_u8 in Hx.
  assert (Hlen : length (motor m) = 4%nat) by apply Hok.
  induction n as [|n [IHm IHok]].
  - split; [|exact Hok]. cbn [presses Nat.iter].
    replace (if d then Z.max 0 (x - Z.of_nat 0) else Z.min 255 (x + Z.of_nat 0))
      with x by (destruct d; lia).
    symmetry. apply list_insert_id, list_lookup_lookup_total_lt. lia.
  - change (presses ch (S n) m) with (handle_input ch (presses ch n m)).
    destruct (handle_input_motor ch k d _ IHok E) as (_ & Hm & Hok').
    split; [|exact Hok'].
    rewrite Hm, IHm.
    rewrite list_lookup_total_insert_eq by lia.
    rewrite list_insert_insert_eq. f_equal.
    unfold key_step. destruct d; lia.
Qed.

Lemma presses_saturate_witness :
  motor (presses "e" 300 power_on) = [0; 0; 255; 0].
Proof.
  destruct (presses_saturate "e" 2 false 300 power_on) as [H _].
  - reflexivity.
  - split; [reflexivity|]. unfold is_u8. cbn. repeat constructor; lia.
  - rewrite H. reflexivity.
Defined.

(** ** More on the boot gate and the run after it *)

(** [setup] ends in one of two ways, decided by the five conditions. *)
Lemma setup_outcome (b : board) :
  if checks_pass b
  then exists m tr,
         setup b power_on = Ret tt m /\ irq m = true /\ pc m = BOOT /\
         motor m = [0; 0; 0; 0] /\ modes m = 0 /\ prev_sw m = 0 /\ set_yaw m = 0 /\
         out m = tr ++ [SerialStr ("Calibrating sensors.." ++ CRLF); AhrsInit;
                        ActuatorsStart;
                        SerialStr ("AHRS loop and actuator signals are running" ++ CRLF);
                        SerialDec8 0; SerialDec8 0; SerialDec8 0; SerialDec8 0;
                        SerialEol] /\
         Forall quiet_event tr
  else exists m, setup b power_on = Dead m /\ pc m = HALTED /\ irq m = false /\
                 Forall quiet_event (out m).
Proof.
  destruct (setup_init_run b power_on) as (m1 & t1 & E1 & W1 & I1 & Q1).
  destruct (stage_sanity_checks b m1) as (m2 & t2 & Q2 & H2).
  destruct (checks_pass b).
  - destruct H2 as (E2 & W2 & I2).
    pose proof (went_on_trans _ _ _ _ _ W1 W2) as (P1 & P2 & P3 & P4 & P5 & P6).
    eexists. exists (t1 ++ t2).
    split; [unfold setup, bind; rewrite E1, E2; reflexivity|].
    unfold setup_start, bind, say, act, show_state, emit; cbn.
    rewrite P2. cbn.
    repeat split; try assumption.
    + congruence.
    + rewrite P6, <- !app_assoc. reflexivity.
    + apply Forall_app; split; assumption.
  - destruct H2 as [E2 W2].
    pose proof (went_on_halted _ _ _ _ _ W1 W2) as (P1 & P2 & _ & _ & _ & _ & P7).
    exists m2. split; [unfold setup, bind; rewrite E1, E2; reflexivity|].
    split; [exact P1|]. split; [exact P2|].
    rewrite P7. cbn [out power_on app].
    apply Forall_app. split; [apply Forall_app; split; assumption|].
    repeat constructor.
Qed.

Lemma modes_update_out (rx : rx_t) (m : machine) :
  out (modes_update rx m) = out m /\ motor (modes_update rx m) = motor m /\
  pc (modes_update rx m) = pc m /\ irq (modes_update rx m) = irq m.
Proof.
  unfold modes_update. destruct (rx_gyro_sw rx =? prev_sw m); repeat split.
Qed.

(** One round of [loop]: seven events, no change to [motor] or to the
    phase, interrupts enabled at the end. *)
Lemma loop_frame (rx : rx_t) (h : ahrs_t) (m : machine) :
  motor (loop rx h m) = motor m /\ pc (loop rx h m) = pc m /\
  irq (loop rx h m) = true /\
  exists a b c d,
    out (loop rx h m) =
      out m ++ [Delay 20; Cli; Sei; ActuatorSet 0 a; ActuatorSet 1 b;
                ActuatorSet 2 c; ActuatorSet 3 d].
Proof.
  unfold loop.
  destruct (modes_update_out rx (emit [Delay 20] m)) as (Ho & Hm & Hp & _).
  unfold control_update, emit, with_set_yaw, sei, cli in *.
  cbn [out motor pc irq] in *. rewrite Ho, Hm, Hp.
  repeat split. do 4 eexists. rewrite <- !app_assoc. reflexivity.
Qed.

(** A console byte leaves the control state and the phase alone. *)
Lemma handle_input_frame (ch : ascii) (m : machine) :
  modes (handle_input ch m) = modes m /\ prev_sw (handle_input ch m) = prev_sw m /\
  set_yaw (handle_input ch m) = set_yaw m /\ pc (handle_input ch m) = pc m /\
  (irq m = true -> irq (handle_input ch m) = true).
Proof.
  unfold handle_input. rewrite handle_switch_table.
  destruct (key_target ch) as [[n []]|].
  - unfold MOTOR_DOWN, actuator_set, show_state, sei, emit.
    destruct (motor m !!! n >? 0); repeat split.
  - unfold MOTOR_UP, actuator_set, show_state, sei, emit.
    destruct (motor m !!! n <? 255); repeat split.
  - repeat split. intros H; exact H.
Qed.

Lemma react_never_starts (m : machine) (s : stimulus) :
  exists tr, out (react m s) = out m ++ tr /\
             Forall (fun e => e <> ActuatorsStart) tr.
Proof.
  destruct s as [rx h|ch]; cbn [react].
  - destruct (pc m).
    + exists []. split; [rewrite app_nil_r; reflexivity | constructor].
    + destruct (loop_frame rx h m) as (_ & _ & _ & a & b & c & d & H).
      eexists. split; [exact H|]. repeat (constructor; [discriminate|]). constructor.
    + exists []. split; [rewrite app_nil_r; reflexivity | constructor].
  - destruct (irq m).
    + apply handle_input_never_starts.
    + exists []. split; [rewrite app_nil_r; reflexivity | constructor].
Qed.

Lemma run_never_starts (ss : list stimulus) :
  forall m, exists tr, out (run m ss) = out m ++ tr /\
                       Forall (fun e => e <> ActuatorsStart) tr.
Proof.
  unfold run. induction ss as [|s ss IH]; intros m; cbn [fold_left].
  - exists []. split; [rewrite app_nil_r; reflexivity | constructor].
  - destruct (react_never_starts m s) as (t1 & E1 & Q1).
    destruct (IH (react m s)) as (t2 & E2 & Q2).
    exists (t1 ++ t2). split; [rewrite E2, E1, app_assoc; reflexivity|].
    apply Forall_app. split; assumption.
Qed.

Lemma quiet_not_start (tr : list event) :
  Forall quiet_event tr -> ActuatorsStart ∉ tr.
Proof.
  intros H Hin. rewrite Forall_forall in H. exact (H _ Hin).
Qed.

(** X13. The actuator driver is started exactly for the boards that pass
    all five checks: whatever ticks and console bytes follow, [main] ends
    up halted when a check fails and running when none does, and
    [actuators_start] has been called in the second case only. *)
Theorem actuators_start_iff_checks_pass (b : board) (ss : list stimulus) :
  exists m,
    (if checks_pass b then main b ss = Ret tt m else main b ss = Dead m) /\
    (ActuatorsStart ∈ out m <-> checks_pass b = true).
Proof.
  pose proof (setup_outcome b) as H. unfold main.
  destruct (checks_pass b).
  - destruct H as (m & tr & E & _ & _ & _ & _ & _ & _ & Ho & _).
    rewrite E. eexists. split; [reflexivity|].
    split; [reflexivity|]. intros _.
    destruct (run_never_starts ss (with_pc RUNNING m)) as (t & Et & _).
    rewrite Et. cbn [out with_pc]. rewrite Ho.
    apply elem_of_app. left. apply elem_of_app. right.
    rewrite !elem_of_cons. right. right. left. reflexivity.
  - destruct H as (m & E & Hpc & Hirq & Q).
    rewrite E. rewrite (halted_absorbing m ss Hpc Hirq).
    exists m. split; [reflexivity|].
    split; [|discriminate].
    intros Hin. exfalso. exact (quiet_not_start _ Q Hin).
Qed.

Lemma react_keeps_invariant (m : machine) (s : stimulus) :
  stimulus_valid s -> running_invariant_holds m -> running_invariant_holds (react m s).
Proof.
  intros Hs (Hpc & Hirq & Hmot & Hone & Hsy).
  destruct s as [rx h|ch]; cbn [react stimulus_valid] in *.
  - rewrite Hpc.
    destruct Hs as [Hv Hsw].
    destruct (loop_frame rx h m) as (Fm & Fp & Fi & _).
    destruct (run_loop_invariant [(rx, h)] m Hone Hsy) as [Hone' Hsy'].
    { apply Forall_cons_2; [|apply Forall_nil_2]. split; [exact Hv | exact Hsw]. }
    cbn [run_loop fst snd] in Hone', Hsy'.
    unfold running_invariant_holds, motors_ok. rewrite Fm, Fp, Fi.
    split; [exact Hpc|]. split; [reflexivity|]. split; [exact Hmot|].
    split; [exact Hone' | exact Hsy'].
  - rewrite Hirq.
    destruct (handle_input_frame ch m) as (Fmd & Fps & Fsy & Fpc & Fi).
    assert (Hmot' : motors_ok (handle_input ch m)).
    { destruct (key_target ch) as [[n d]|] eqn:E.
      - apply (handle_input_motor ch n d m Hmot E).
      - pose proof (handle_input_spec ch m Hmot) as H. rewrite E in H.
        rewrite H. exact Hmot. }
    unfold running_invariant_holds. rewrite Fmd, Fsy, Fpc.
    split; [exact Hpc|]. split; [apply Fi; exact Hirq|]. split; [exact Hmot'|].
    split; [exact Hone | exact Hsy].
Qed.

(** X14. After a boot that passed, and over any sequence of ticks (with
    valid channels and a 0/1 switch) and console bytes, the machine is
    still running with interrupts enabled - so every console byte is
    handled -, the four motor test values are bytes, at most one mode bit
    is set and the yaw setpoint is a 16-bit value. *)
Theorem running_invariant (b : board) (ss : list stimulus) :
  checks_pass b = true -> Forall stimulus_valid ss ->
  exists m, main b ss = Ret tt m /\ running_invariant_holds m.
Proof.
  intros Hok Hval.
  pose proof (setup_outcome b) as H. rewrite Hok in H.
  destruct H as (m & tr & E & Hirq & _ & Hmot & Hmd & _ & Hsy & _).
  unfold main. rewrite E. eexists. split; [reflexivity|].
  assert (I0 : running_invariant_holds (with_pc RUNNING m)).
  { unfold running_invariant_holds, motors_ok. cbn [pc irq motor modes set_yaw with_pc].
    rewrite Hmot, Hmd, Hsy.
    split; [reflexivity|]. split; [exact Hirq|].
    split; [split; [reflexivity | unfold is_u8; repeat constructor; lia]|].
    split; [left; reflexivity | unfold is_s16; lia]. }
  revert I0. generalize (with_pc RUNNING m) as m0.
  unfold run. induction Hval as [|s ss Hs _ IH]; intros m0 I0; cbn [fold_left].
  - exact I0.
  - apply IH. apply react_keeps_invariant; assumption.
Qed.

Lemma running_invariant_witness :
  exists m, main board_at_rest [Key "q"; Tick rx_hold_yaw_right ahrs_level; Key "x"]
              = Ret tt m /\ running_invariant_holds m.
Proof.
  apply running_invariant.
  - vm_compute. reflexivity.
  - apply Forall_cons_2; [exact I|].
    apply Forall_cons_2;
      [split; [unfold rx_valid, is_u8; cbn; lia | right; reflexivity]|].
    apply Forall_cons_2; [exact I | apply Forall_nil_2].
Defined.

(** X15. The console and the control loop keep to their own state: a run
    of ticks alone never changes the [motor] test values, and a run of
    console bytes alone never changes the mode flags, the remembered
    switch or the yaw setpoint - whatever the machine's state. *)
Theorem console_and_loop_separate (m : machine) (ss : list stimulus) :
  (Forall is_tick ss -> motor (run m ss) = motor m) /\
  (Forall is_key ss ->
   modes (run m ss) = modes m /\ prev_sw (run m ss) = prev_sw m /\
   set_yaw (run m ss) = set_yaw m).
Proof.
  unfold run. split.
  - intros H. revert m. induction H as [|s ss Hs _ IH]; intros m; [reflexivity|].
    cbn [fold_left]. rewrite IH.
    destruct s as [rx h|ch]; [|destruct Hs]. cbn [react].
    destruct (pc m); try reflexivity. apply loop_frame.
  - intros H. revert m. induction H as [|s ss Hs _ IH]; intros m; [repeat split|].
    cbn [fold_left]. destruct (IH (react m s)) as (A & B & C). rewrite A, B, C.
    destruct s as [rx h|ch]; [destruct Hs|]. cbn [react].
    destruct (irq m); [|repeat split].
    destruct (handle_input_frame ch m) as (Fmd & Fps & Fsy & _).
    repeat split; assumption.
Qed.

Lemma console_and_loop_separate_witness :
  motor (run (with_pc RUNNING (with_motor [1; 2; 3; 4] power_on))
             [Tick rx_hold_yaw_right ahrs_level; Tick rx_neutral ahrs_level])
    = [1; 2; 3; 4].
Proof.
  destruct (console_and_loop_separate
              (with_pc RUNNING (with_motor [1; 2; 3; 4] power_on))
              [Tick rx_hold_yaw_right ahrs_level; Tick rx_neutral ahrs_level])
    as [H _].
  apply H. repeat (apply Forall_cons_2; [exact I|]). apply Forall_nil_2.
Defined.

Lemma setup_dies_iff (b : board) :
  (exists m, setup b power_on = Dead m) <-> checks_pass b = false.
Proof.
  pose proof (setup_outcome b) as H.
  destruct (checks_pass b).
  - destruct H as (m & tr & E & _). split; [|discriminate].
    intros [m' E']. rewrite E in E'. discriminate.
  - destruct H as (m & E & _). split; [reflexivity|]. intros _. exists m. exact E.
Qed.

Lemma gyro_cond_supply (l : list Z) (v3 v4 : Z) :
  gyro_cond (<[3%nat := v3]> (<[4%nat := v4]> l)) = gyro_cond l.
Proof.
  unfold gyro_cond. rewrite !list_lookup_total_insert_ne by lia. reflexivity.
Qed.

Lemma gyro_readings_supply (b : board) (v3 v4 : Z) (k : nat) :
  gyro_readings (with_supply v3 v4 b) k =
    <[3%nat := v3]> (<[4%nat := v4]> (gyro_readings b k)).
Proof.
  induction k as [|k IH]; [reflexivity|].
  cbn [gyro_readings]. rewrite IH. unfold gyro_body.
  change (adc_convert (with_supply v3 v4 b)) with (adc_convert b).
  rewrite (list_insert_insert_ne _ 0 3), (list_insert_insert_ne _ 0 4) by lia.
  rewrite (list_insert_insert_ne _ 1 3), (list_insert_insert_ne _ 1 4) by lia.
  rewrite (list_insert_insert_ne _ 2 3), (list_insert_insert_ne _ 2 4) by lia.
  reflexivity.
Qed.

Lemma forallb_pointwise {A} (f g : A -> bool) (l : list A) :
  (forall x, f x = g x) -> forallb f l = forallb g l.
Proof.
  intros H. induction l as [|x l IH]; [reflexivity|].
  cbn [forallb]. rewrite H, IH. reflexivity.
Qed.

Lemma supply_other_checks (b : board) (v3 v4 : Z) :
  revision_ok (with_supply v3 v4 b) = revision_ok b /\
  magnetic_ok (with_supply v3 v4 b) = magnetic_ok b /\
  accel_ok (with_supply v3 v4 b) = accel_ok b /\
  receiver_ok (with_supply v3 v4 b) = receiver_ok b.
Proof.
  unfold revision_ok, magnetic_ok, accel_ok, receiver_ok, acc_len, acc_sum,
    mag_len, mag_sum, mag_axis, with_supply, with_adc_values.
  cbn [cmps09_version cmps09_mag_regs cmps09_mag_calib cmps09_acc_regs
       rx_no_signal rx_throttle isqrt32].
  repeat split.
Qed.

(** X16. Battery voltage and CPU temperature are printed but never
    checked: replacing the two readings leaves every one of the five
    conditions as it was, so [setup] dies on the changed board exactly
    when it dies on the original one. *)
Theorem supply_readings_never_gate (b : board) (v3 v4 : Z) :
  checks_pass (with_supply v3 v4 b) = checks_pass b /\
  ((exists m, setup (with_supply v3 v4 b) power_on = Dead m) <->
   (exists m, setup b power_on = Dead m)).
Proof.
  assert (E : checks_pass (with_supply v3 v4 b) = checks_pass b).
  { unfold checks_pass.
    destruct (supply_other_checks b v3 v4) as (-> & -> & -> & ->).
    replace (gyro_ok (with_supply v3 v4 b)) with (gyro_ok b); [reflexivity|].
    unfold gyro_ok. apply forallb_pointwise. intros k.
    rewrite gyro_readings_supply, gyro_cond_supply. reflexivity. }
  split; [exact E|]. rewrite !setup_dies_iff, E. reflexivity.
Qed.

Lemma in_band_doubled (c : Z) :
  0 <= c <= 32767 -> (in_band (u16 (2 * c)) = true <-> 337 <= c <= 423).
Proof.
  intros H. rewrite unsigned16_small by lia. unfold in_band.
  rewrite andb_true_iff. rewrite Z.gtb_lt, Z.ltb_lt. lia.
Qed.

(** X17. A round of gyro polling stores twice each conversion, so with at
    least three entries in [adc_values] and conversions of at most 15
    bits, the loop condition holds after the round exactly when each of
    the three raw conversions is in 337..423. *)
Theorem gyro_conversion_window (b : board) (k : nat) (adc : list Z) :
  (3 <= length adc)%nat ->
  (forall ch, 0 <= adc_convert b k ch <= 32767) ->
  (gyro_cond (gyro_body b k adc) = true <->
   337 <= adc_convert b k 0 <= 423 /\ 337 <= adc_convert b k 1 <= 423 /\
   337 <= adc_convert b k 2 <= 423).
Proof.
  intros Hlen Hc. unfold gyro_cond, gyro_body.
  rewrite (list_lookup_total_insert_ne _ 2 0), (list_lookup_total_insert_ne _ 1 0) by lia.
  rewrite (list_lookup_total_insert_ne _ 2 1) by lia.
  rewrite !list_lookup_total_insert_eq by (rewrite ?length_insert; lia).
  rewrite !andb_true_iff, !in_band_doubled by apply Hc. tauto.
Qed.

Lemma gyro_conversion_window_witness :
  gyro_cond (gyro_body board_at_rest 0 [0; 0; 0; 700; 350]) = true.
Proof.
  apply (gyro_conversion_window board_at_rest 0 [0; 0; 0; 700; 350]).
  - cbn. lia.
  - intros ch. cbn. lia.
  - cbn. lia.
Defined.

(** X18. The receiver check lets a board without a receiver boot, whatever
    the throttle channel reads: when the other four checks pass, [setup]
    starts the actuators if no signal is detected or the throttle is at
    most 5, and dies if a signal is detected with the throttle above 5. *)
Theorem receiver_check_cases (b : board) :
  revision_ok b = true -> gyro_ok b = true ->
  magnetic_ok b = true -> accel_ok b = true ->
  (rx_no_signal b <> 0 \/ rx_throttle b <= 5 ->
   exists m, setup b power_on = Ret tt m /\ ActuatorsStart ∈ out m) /\
  (rx_no_signal b = 0 -> 5 < rx_throttle b ->
   exists m, setup b power_on = Dead m /\ ActuatorsStart ∉ out m).
Proof.
  intros H1 H2 H3 H4.
  pose proof (setup_outcome b) as H.
  unfold checks_pass in H. rewrite H1, H2, H3, H4 in H. cbn [andb] in H.
  unfold receiver_ok in H. split.
  - intros Hc.
    replace ((rx_no_signal b =? 0) && (rx_throttle b >? 5)) with false in H
      by (destruct (Z.eqb_spec (rx_no_signal b) 0); cbn [andb]; lia).
    cbn [negb] in H. destruct H as (m & tr & E & _ & _ & _ & _ & _ & _ & Ho & _).
    exists m. split; [exact E|]. rewrite Ho.
    apply elem_of_app. right. rewrite !elem_of_cons. right. right. left. reflexivity.
  - intros Hs Ht.
    replace ((rx_no_signal b =? 0) && (rx_throttle b >? 5)) with true in H
      by (rewrite Hs; cbn; lia).
    cbn [negb] in H. destruct H as (m & E & _ & _ & Q).
    exists m. split; [exact E | apply quiet_not_start; exact Q].
Qed.

Lemma receiver_check_cases_witness :
  exists m, setup (with_receiver 0 200 board_at_rest) power_on = Dead m /\
            ActuatorsStart ∉ out m.
Proof.
  destruct (receiver_check_cases (with_receiver 0 200 board_at_rest)) as [_ H];
    [vm_compute; reflexivity | vm_compute; reflexivity
    |vm_compute; reflexivity | vm_compute; reflexivity |].
  apply H; [reflexivity | cbn; lia].
Defined.

(** X19. A magnetometer that does not answer with revision 2 stops the
    boot at the first check: the output is the initialisation, the
    register dump, the battery and temperature lines, the revision line
    and "ERROR", with no gyro conversion and no further compass read. *)
Theorem wrong_revision_output (b : board) :
  cmps09_version b <> 0x02 ->
  exists m,
    setup b power_on = Dead m /\
    out m =
      [SerialInit; AdcInit; TimerInit; ActuatorsInit 4; SerialSetHandler;
       RxInit; TwiInit; Sei; AdcConvertAll; Delay 4000;
       SerialStr "SREG:"; SerialHex16 (SREG b); SerialStr ", MCUCR:";
       SerialHex16 (MCUCR b); SerialEol;
       SerialStr "Battery voltage:";
       SerialFp32 (u32 (adc_values b !!! 3%nat * 323 * 1232)) 24678400;
       SerialChar "V"; SerialEol;
       SerialStr "CPU temperature:";
       SerialFp32 (u16 ((adc_values b !!! 4%nat - 269) * 1100)) 1024; SerialEol;
       CmpsRead 0 1; SerialStr "Magnetometer revision:";
       SerialHex16 (cmps09_version b); SerialEol;
       Cli; SerialStr "ERROR"].
Proof.
  intros Hv.
  assert (R : revision_ok b = false) by (unfold revision_ok; lia).
  eexists.
  cbv beta iota delta [setup setup_init sanity_checks report_supply bind say act].
  rewrite check_revision_run. cbv zeta. rewrite R.
  split; reflexivity.
Qed.

Lemma wrong_revision_output_witness :
  exists m, setup (with_version 0xff board_at_rest) power_on = Dead m /\
            length (out m) = 28%nat.
Proof.
  destruct (wrong_revision_output (with_version 0xff board_at_rest)) as (m & E & Ho).
  - cbn. lia.
  - exists m. split; [exact E|]. rewrite Ho. reflexivity.
Defined.
